(** * A shallow embedding of the GAN tutorial notebook (notebooks/gan.ipynb)

    The notebook is a linear Python script.  Its own code is a cyclic batch
    generator, two network definitions, a plotting helper, a guarded
    directory creation and the training loop; everything else is a call into
    numpy, TensorFlow, Edward, matplotlib or [os].  The library calls are
    modelled by their documented contract (what they return, when they
    raise), the notebook's own statements are translated line by line.

    The two network definitions are two calls of [tf.layers.dense] each.
    What these compute is decided by TensorFlow's float32 kernels (the order
    of summation in the matrix product, the logistic function, overflow and
    NaN), none of which is part of the notebook: the definitions appear
    here as the statements that build the graph, and the value of the
    model's output is a parameter of the training loop. *)

From Stdlib Require Import ZArith List Lia Bool String Ascii.
From Stdlib Require Import Floats.SpecFloat.
From Stdlib Require Import DecimalString.
From Stdlib Require DecimalZ.
From stdpp Require Import base list strings gmap.

Local Open Scope Z_scope.

(* Iteration counts such as 14000 are written as [nat] literals. *)
Set Warnings "-abstract-large-number".

(** ** Python results: a value or a raised exception *)

Inductive exn : Type :=
  | ValueError
  | IndexError
  | FileExistsError
  | ZeroDivisionError.

Inductive result (A : Type) : Type :=
  | Ok (a : A)
  | Raise (e : exn).
Arguments Ok {A} a.
Arguments Raise {A} e.

(** Statements that read and write a state [S] and may raise. *)
Definition Py (S A : Type) : Type := S -> result (A * S).

Definition ret {S A} (a : A) : Py S A := fun s => Ok (a, s).

Definition bind {S A B} (m : Py S A) (k : A -> Py S B) : Py S B :=
  fun s => match m s with
           | Ok (a, s') => k a s'
           | Raise e => Raise e
           end.

Definition raise {S A} (e : exn) : Py S A := fun _ => Raise e.

Definition lift {S A} (r : result A) : Py S A :=
  fun s => match r with Ok a => Ok (a, s) | Raise e => Raise e end.

Declare Scope py_scope.
Delimit Scope py_scope with py.
Notation "x <- m ;; k" := (bind m (fun x => k))
  (at level 100, m at next level, right associativity) : py_scope.
Notation "m ;;; k" := (bind m (fun _ => k))
  (at level 100, right associativity) : py_scope.

(** [[f(x) for x in xs]] with a stateful, fallible [f]. *)
Fixpoint map_py {S A B} (f : A -> Py S B) (xs : list A) : Py S (list B) :=
  match xs with
  | [] => ret []
  | x :: xs' =>
      bind (f x) (fun y => bind (map_py f xs') (fun ys => ret (y :: ys)))
  end.

(** ** numpy arrays and basic slicing

    A two-dimensional array is the list of its rows.  [a[lo:hi]] never
    raises: a negative bound counts from the end, and both bounds are
    clipped to [0, len(a)]. *)

Abbreviation row := (list Z).
Abbreviation array := (list (list Z)).

Definition shape0 {A} (a : list A) : Z := Z.of_nat (length a).

Definition clip_index (n i : Z) : Z :=
  if i <? 0 then Z.max (i + n) 0 else Z.min i n.

Definition slice {A} (a : list A) (lo hi : option Z) : list A :=
  let n := shape0 a in
  let lo' := match lo with Some i => clip_index n i | None => 0 end in
  let hi' := match hi with Some i => clip_index n i | None => n end in
  take (Z.to_nat (hi' - lo')) (drop (Z.to_nat lo') a).

(** ** The batch generator: row selection

    One pass through the body of [while True] up to the two lines that
    normalise and binarise: the selected rows and the new value of
    [start]. *)

Definition select_batch (arr : array) (batch_size start : Z) : array * Z :=
  let stop := start + batch_size in
  let diff := stop - shape0 arr in
  if diff <=? 0 then
    (slice arr (Some start) (Some stop), start + batch_size)
  else
    (slice arr (Some start) None ++ slice arr None (Some diff), diff).

(** The value of [start] when the generator is resumed for the [k]-th time
    (counting from 0); [start = 0] on entry. *)
Fixpoint start_at (arr : array) (batch_size : Z) (k : nat) : Z :=
  match k with
  | O => 0
  | S k' => snd (select_batch arr batch_size (start_at arr batch_size k'))
  end.

(** The rows selected for the [k]-th batch, before normalisation. *)
Definition raw_batch (arr : array) (batch_size : Z) (k : nat) : array :=
  fst (select_batch arr batch_size (start_at arr batch_size k)).

(** ** float32 arithmetic and the normalisation step

    [batch.astype(np.float32) / 255.0] is computed in IEEE-754 binary32
    (24 bits of precision, round to nearest even); [SpecFloat] gives the
    operations bit for bit. *)

Definition f32_prec : Z := 24.
Definition f32_emax : Z := 128.

Definition astype_float32 (x : Z) : spec_float :=
  binary_normalize f32_prec f32_emax x 0 false.

Definition f32_div (x y : spec_float) : spec_float :=
  SFdiv f32_prec f32_emax x y.

Definition f32_zero : spec_float := astype_float32 0.
Definition f32_one : spec_float := astype_float32 1.

Definition normalize_pixel (x : Z) : spec_float :=
  f32_div (astype_float32 x) (astype_float32 255).

Definition normalize (batch : array) : list (list spec_float) :=
  map (map normalize_pixel) batch.

(** ** numpy's global random state

    The Mersenne Twister itself is not modelled: the state is the stream of
    raw words it will produce and the position in it.  [np.random.binomial]
    and [np.random.randint] both draw from this one state. *)

Record rng : Type := mk_rng { rng_words : nat -> N; rng_pos : nat }.

Definition next_word : Py rng N :=
  fun r => Ok (rng_words r (rng_pos r),
               {| rng_words := rng_words r; rng_pos := S (rng_pos r) |}).

(** One Bernoulli draw with success probability [p].

    The sampler is numpy's and is modelled by the draw it documents.  One
    word of the stream gives a uniform sample [u = v / 2^53] with
    [v = w mod 2^53] (53 random bits, as numpy's doubles in [0, 1) have),
    and the outcome is 1 when [u < p].  The probability is a float32 and
    is compared exactly, as a dyadic number: [threshold p] is the number of
    values [v] in [0, 2^53) with [v / 2^53 < p], so the outcome 1 has
    probability [threshold p / 2^53].  Which of the samples give 1 is the
    model's choice; how many do is not. *)
Definition threshold (p : spec_float) : Z :=
  match p with
  | S754_finite false m e =>
      Z.min (2 ^ 53)
            (if 0 <=? e + 53 then Zpos m * 2 ^ (e + 53)
             else (Zpos m + 2 ^ (- (e + 53)) - 1) / 2 ^ (- (e + 53)))
  | S754_infinity false => 2 ^ 53
  | _ => 0
  end.

Definition bernoulli_value (w : N) (p : spec_float) : Z :=
  if Z.of_N (w mod 2 ^ 53) <? threshold p then 1 else 0.

Definition bernoulli (p : spec_float) : Py rng Z :=
  bind next_word (fun w => ret (bernoulli_value w p)).

(** [np.random.binomial(1, p)] for an array [p]: the whole array is checked
    first ([ValueError] when some entry is below 0 or above 1), then one
    draw is made per entry. *)
Definition binomial1 (p : list (list spec_float)) : Py rng array :=
  if existsb (existsb (fun x => SFltb x f32_zero)) p then raise ValueError
  else if existsb (existsb (fun x => SFltb f32_one x)) p then raise ValueError
  else map_py (map_py bernoulli) p.

(** [np.random.randint(low, size=size)]: [size] integers in [0, low);
    [ValueError] when the range is empty. *)
Definition randint (low : Z) (size : nat) : Py rng (list Z) :=
  if low <=? 0 then raise ValueError
  else map_py (fun _ : nat => bind next_word (fun w => ret (Z.of_N w mod low)))
              (seq 0 size).

(** ** The batch generator

    The generator object: the frame of [generator(array, batch_size)]
    suspended at its [yield]. *)

Record gen : Type := mk_gen {
  gen_array : array;
  gen_batch_size : Z;
  gen_start : Z
}.

Definition generator (arr : array) (batch_size : Z) : gen :=
  {| gen_array := arr; gen_batch_size := batch_size; gen_start := 0 |}.

(** [next(g)]: run the loop body once, up to the [yield]. *)
Definition next (g : gen) : Py rng (array * gen) :=
  let '(batch, start') :=
    select_batch (gen_array g) (gen_batch_size g) (gen_start g) in
  let batch := normalize batch in
  bind (binomial1 batch) (fun batch =>
  ret (batch, {| gen_array := gen_array g;
                 gen_batch_size := gen_batch_size g;
                 gen_start := start' |})).

(** [n] successive calls of [next]: the batches in the order yielded. *)
Fixpoint next_n (n : nat) (g : gen) : Py rng (list array * gen) :=
  match n with
  | O => ret ([], g)
  | S n' =>
      bind (next g) (fun '(b, g') =>
      bind (next_n n' g') (fun '(bs, g'') => ret (b :: bs, g'')))
  end.

(** ** The output directory *)

Definition data_dir : string := "/tmp/data".
Definition out_dir : string := "/tmp/out".
Definition M : Z := 128.
Definition d : Z := 100.

Inductive os_call : Type :=
  | CallExists (path : string)
  | CallMakedirs (path : string).

(** The file system as far as the notebook looks at it: the set of paths
    that exist, and the log of [os] calls made. *)
Record os_state : Type := mk_os {
  os_paths : gset string;
  os_calls : list os_call
}.

(** The proper prefixes of a path that end before a separator. *)
Fixpoint parents_from (pre s : string) : list string :=
  match s with
  | EmptyString => []
  | String c s' =>
      (if Ascii.eqb c "/" && negb (String.eqb pre "") then [pre] else [])
        ++ parents_from (pre +:+ String c EmptyString) s'
  end.

Definition parents (path : string) : list string := parents_from "" path.

Definition os_path_exists (path : string) : Py os_state bool :=
  fun s => Ok (bool_decide (path ∈ os_paths s),
               {| os_paths := os_paths s;
                  os_calls := os_calls s ++ [CallExists path] |}).

(** [os.makedirs(path)]: creates the directory and the missing parents;
    [FileExistsError] when the path already exists. *)
Definition os_makedirs (path : string) : Py os_state unit :=
  fun s =>
    if bool_decide (path ∈ os_paths s) then Raise FileExistsError
    else Ok (tt, {| os_paths := {[path]} ∪ list_to_set (parents path)
                                  ∪ os_paths s;
                    os_calls := os_calls s ++ [CallMakedirs path] |}).

(** [if not os.path.exists(out_dir): os.makedirs(out_dir)] *)
Definition setup_out_dir : Py os_state unit :=
  (e <- os_path_exists out_dir ;;
   if negb e then os_makedirs out_dir else ret tt)%py.

(** [a] is a two-dimensional array of shape [[m, n]]. *)
Definition has_shape {A} (a : list (list A)) (m n : nat) : Prop :=
  length a = m /\ Forall (fun r => length r = n) a.

(** ** Plotting *)

Definition rbind {A B} (r : result A) (k : A -> result B) : result B :=
  match r with Ok a => k a | Raise e => Raise e end.

(** [gs[i]] of a [GridSpec(nrows, ncols)]: the cell in row-major order,
    [IndexError] past the last cell. *)
Definition gridspec_getitem (nrows ncols i : nat) : result (nat * nat) :=
  if (i <? nrows * ncols)%nat then Ok ((i / ncols)%nat, (i mod ncols)%nat)
  else Raise IndexError.

Fixpoint rows_of {A} (r c : nat) (l : list A) : list (list A) :=
  match r with
  | O => []
  | S r' => take c l :: rows_of r' c (drop c l)
  end.

(** [sample.reshape(r, c)]: [ValueError] unless the sizes agree. *)
Definition reshape {A} (r c : nat) (sample : list A) : result (list (list A)) :=
  if (length sample =? r * c)%nat then Ok (rows_of r c sample)
  else Raise ValueError.

(** One subplot: its grid cell and the image shown in it. *)
Record axes : Type := mk_axes {
  ax_cell : nat * nat;
  ax_image : list (list spec_float)
}.

Definition figure : Type := list axes.

(** The body of [for i, sample in enumerate(samples)], from index [i] on. *)
Fixpoint plot_from (i : nat) (samples : list (list spec_float)) : result figure :=
  match samples with
  | [] => Ok []
  | sample :: rest =>
      rbind (gridspec_getitem 4 4 i) (fun cell =>
      rbind (reshape 28 28 sample) (fun img =>
      rbind (plot_from (S i) rest) (fun axs =>
      Ok ({| ax_cell := cell; ax_image := img |} :: axs))))
  end.

Definition plot (samples : list (list spec_float)) : result figure :=
  plot_from 0 samples.

(** [a[idx, ]] for an integer array [idx]: the rows at those positions,
    negative positions counted from the end, [IndexError] out of range. *)
Definition take_row {A} (a : list (list A)) (i : Z) : result (list A) :=
  let n := shape0 a in
  if (- n <=? i) && (i <? n) then
    match a !! Z.to_nat (if i <? 0 then i + n else i) with
    | Some r => Ok r
    | None => Raise IndexError
    end
  else Raise IndexError.

Fixpoint take_rows {A} (a : list (list A)) (idx : list Z)
    : result (list (list A)) :=
  match idx with
  | [] => Ok []
  | i :: idx' =>
      rbind (take_row a i) (fun r =>
      rbind (take_rows a idx') (fun rs => Ok (r :: rs)))
  end.

(** ** Strings: [str], [zfill], [os.path.join], [format] *)

Definition str (z : Z) : string := NilZero.string_of_int (Z.to_int z).

Fixpoint zeros (n : nat) : string :=
  match n with O => EmptyString | S n' => String "0" (zeros n') end.

(** [s.zfill(width)]: zeros go after a leading sign. *)
Definition zfill (width : nat) (s : string) : string :=
  let n := String.length s in
  if (width <=? n)%nat then s
  else match s with
       | String c rest =>
           if Ascii.eqb c "-" || Ascii.eqb c "+"
           then String c (zeros (width - n) +:+ rest)
           else zeros (width - n) +:+ s
       | EmptyString => zeros width
       end.

Definition ends_with_sep (s : string) : bool :=
  match String.get (String.length s - 1) s with
  | Some c => Ascii.eqb c "/"
  | None => false
  end.

(** [os.path.join(a, b)] on POSIX. *)
Definition path_join (a b : string) : string :=
  match b with
  | String c _ =>
      if Ascii.eqb c "/" then b
      else if String.eqb a "" || ends_with_sep a then a +:+ b
      else a +:+ "/" +:+ b
  | EmptyString =>
      if String.eqb a "" || ends_with_sep a then a else a +:+ "/"
  end.

(** [template.format(arg)] for a template with one [{}] field. *)
Fixpoint format1 (template arg : string) : string :=
  match template with
  | String "{" (String "}" rest) => arg +:+ rest
  | String c rest => String c (format1 rest arg)
  | EmptyString => EmptyString
  end.

(** ** TensorFlow, Edward and matplotlib as the notebook sees them

    The session is reduced to two counters: how many parameter updates
    have been applied and how many times the model output [x] has been
    evaluated.  What the notebook observes of the run is the trace of
    library calls. *)

Record tf_state : Type := mk_tf { tf_updates : nat; tf_runs : nat }.

Inductive event : Type :=
  | EvDefine (name : string)
  | EvSetSeed (seed : Z)
  | EvLoadData (dir : string)
  | EvNewGenerator
  | EvPlaceholder
  | EvBuildModel
  | EvNewInference
  | EvInitialize (n_iter n_print : Z)
  | EvGetSession
  | EvInitVariables
  | EvRandint (idx : list Z)
  | EvSessRun
  | EvSavefig (path : string) (fig : figure)
  | EvClose
  | EvNextBatch
  | EvUpdate
  | EvPrintProgress.

Record world : Type := mk_world {
  w_os : os_state;
  w_rng : rng;
  w_tf : tf_state;
  w_trace : list event
}.

Definition log (e : event) : Py world unit :=
  fun w => Ok (tt, {| w_os := w_os w; w_rng := w_rng w; w_tf := w_tf w;
                      w_trace := w_trace w ++ [e] |}).

Definition with_rng {A} (m : Py rng A) : Py world A :=
  fun w => match m (w_rng w) with
           | Ok (a, r) => Ok (a, {| w_os := w_os w; w_rng := r;
                                    w_tf := w_tf w; w_trace := w_trace w |})
           | Raise e => Raise e
           end.

Definition with_os {A} (m : Py os_state A) : Py world A :=
  fun w => match m (w_os w) with
           | Ok (a, o) => Ok (a, {| w_os := o; w_rng := w_rng w;
                                    w_tf := w_tf w; w_trace := w_trace w |})
           | Raise e => Raise e
           end.

(** The attributes of the inference object the loop reads. *)
Record inference : Type := mk_inference { n_iter : Z; n_print : Z }.

Definition initialize (n_iter n_print : Z) : Py world inference :=
  bind (log (EvInitialize n_iter n_print)) (fun _ =>
  ret {| n_iter := n_iter; n_print := n_print |}).

(** [a % b] on Python integers. *)
Definition py_mod (a b : Z) : result Z :=
  if b =? 0 then Raise ZeroDivisionError else Ok (a mod b).

Definition range (n : Z) : list Z := map Z.of_nat (seq 0 (Z.to_nat n)).

(** A value fed for [x_ph = tf.placeholder(tf.float32, [M, 784])] must
    have exactly that shape. *)
Definition feed_ok (x_batch : array) : bool :=
  (length x_batch =? Z.to_nat M)%nat
  && forallb (fun r => (length r =? 784)%nat) x_batch.

Definition inference_update (x_batch : array) : Py world unit :=
  fun w =>
    if feed_ok x_batch then
      Ok (tt, {| w_os := w_os w; w_rng := w_rng w;
                 w_tf := {| tf_updates := S (tf_updates (w_tf w));
                            tf_runs := tf_runs (w_tf w) |};
                 w_trace := w_trace w ++ [EvUpdate] |})
    else Raise ValueError.

Definition next_batch (g : gen) : Py world (array * gen) :=
  bind (with_rng (next g)) (fun r => bind (log EvNextBatch) (fun _ => ret r)).

(** The local variables the loop assigns: [i] and the generator's frame.
    [idx] is assigned before the loop and only read inside it. *)
Record loop_vars : Type := mk_vars { lv_i : Z; lv_gen : gen }.

Section Notebook.
(** The value of [sess.run(x)] in a given session state. *)
Variable model_output : tf_state -> list (list spec_float).

Definition sess_run_x : Py world (list (list spec_float)) :=
  fun w => Ok (model_output (w_tf w),
               {| w_os := w_os w; w_rng := w_rng w;
                  w_tf := {| tf_updates := tf_updates (w_tf w);
                             tf_runs := S (tf_runs (w_tf w)) |};
                  w_trace := w_trace w ++ [EvSessRun] |}).

(** The [if t % inference.n_print == 0:] block; returns the new [i]. *)
Definition render (idx : list Z) (i : Z) : Py world Z :=
  (samples <- sess_run_x ;;
   samples <- lift (take_rows samples idx) ;;
   fig <- lift (plot samples) ;;
   log (EvSavefig (format1 (path_join out_dir "{}.png") (zfill 3 (str i)))
                  fig) ;;;
   log EvClose ;;;
   ret (i + 1))%py.

(** One iteration of [for t in range(inference.n_iter)]. *)
Definition loop_body (inf : inference) (idx : list Z) (t : Z)
    (v : loop_vars) : Py world loop_vars :=
  (r <- lift (py_mod t (n_print inf)) ;;
   i <- (if r =? 0 then render idx (lv_i v) else ret (lv_i v)) ;;
   bind (next_batch (lv_gen v)) (fun '(x_batch, g) =>
   inference_update x_batch ;;;
   log EvPrintProgress ;;;
   ret {| lv_i := i; lv_gen := g |}))%py.

Fixpoint for_range (ts : list Z) (body : Z -> loop_vars -> Py world loop_vars)
    (v : loop_vars) : Py world loop_vars :=
  match ts with
  | [] => ret v
  | t :: ts' => bind (body t v) (for_range ts' body)
  end.

(** The last code cell. *)
Definition training_loop (inf : inference) (x_train_generator : gen)
    : Py world loop_vars :=
  (log EvGetSession ;;;
   log EvInitVariables ;;;
   idx <- with_rng (randint M 16) ;;
   log (EvRandint idx) ;;;
   for_range (range (n_iter inf)) (loop_body inf idx)
             {| lv_i := 0; lv_gen := x_train_generator |})%py.

(** The notebook, cell by cell.  [x_train] is what [mnist(data_dir)]
    returns. *)
Definition notebook (x_train : array) : Py world loop_vars :=
  (log (EvDefine "plot") ;;;
   log (EvSetSeed 42) ;;;
   with_os setup_out_dir ;;;
   log (EvDefine "generator") ;;;
   log (EvLoadData data_dir) ;;;
   let x_train_generator := generator x_train M in
   log EvNewGenerator ;;;
   log EvPlaceholder ;;;
   log (EvDefine "generative_network") ;;;
   log EvBuildModel ;;;
   log (EvDefine "discriminative_network") ;;;
   log EvNewInference ;;;
   log EvNewInference ;;;
   inf <- initialize 15000 1000 ;;
   training_loop inf x_train_generator)%py.
End Notebook.

(** ** Reading a trace *)

Definition is_update (e : event) : bool :=
  match e with EvUpdate => true | _ => false end.

Definition is_next_batch (e : event) : bool :=
  match e with EvNextBatch => true | _ => false end.

Definition is_savefig (e : event) : bool :=
  match e with EvSavefig _ _ => true | _ => false end.

Definition is_randint (e : event) : bool :=
  match e with EvRandint _ => true | _ => false end.

Definition is_load_data (e : event) : bool :=
  match e with EvLoadData _ => true | _ => false end.

Definition is_define (name : string) (e : event) : bool :=
  match e with EvDefine n => String.eqb n name | _ => false end.

Definition count (f : event -> bool) (tr : list event) : nat :=
  length (List.filter f tr).

(** The position of the first event that satisfies [f]. *)
Fixpoint index_from (n : nat) (f : event -> bool) (tr : list event)
    : option nat :=
  match tr with
  | [] => None
  | e :: tr' => if f e then Some n else index_from (S n) f tr'
  end.

Definition first_index (f : event -> bool) (tr : list event) : option nat :=
  index_from 0 f tr.

(** For every figure saved, in order: how many parameter updates came
    before it, and the file it was written to. *)
Fixpoint saves_from (updates : nat) (tr : list event) : list (nat * string) :=
  match tr with
  | [] => []
  | EvSavefig path _ :: tr' => (updates, path) :: saves_from updates tr'
  | EvUpdate :: tr' => saves_from (S updates) tr'
  | _ :: tr' => saves_from updates tr'
  end.

Definition saves (tr : list event) : list (nat * string) := saves_from 0 tr.

(** The figures saved, in order. *)
Fixpoint saved_figures (tr : list event) : list figure :=
  match tr with
  | [] => []
  | EvSavefig _ fig :: tr' => fig :: saved_figures tr'
  | _ :: tr' => saved_figures tr'
  end.

(** ** Vocabulary of the statements *)

Definition pixel (x : Z) : Prop := 0 <= x <= 255.

(** What [binomial1] tests of a probability, and that it lies in [0, 1]. *)
Definition in_unit (p : spec_float) : bool :=
  negb (SFltb p f32_zero) && negb (SFltb f32_one p)
  && SFleb f32_zero p && SFleb p f32_one.

Definition bit (b : Z) : Prop := b = 0 \/ b = 1.

(** The entries of a two-dimensional array, row after row. *)
Definition entries {A} (a : list (list A)) : nat := length (concat a).

(** The frame the generator is left in by one more pass of its loop. *)
Definition advance (g : gen) : gen :=
  {| gen_array := gen_array g;
     gen_batch_size := gen_batch_size g;
     gen_start :=
       snd (select_batch (gen_array g) (gen_batch_size g) (gen_start g)) |}.

Definition selected (g : gen) : array :=
  fst (select_batch (gen_array g) (gen_batch_size g) (gen_start g)).

(** The frame after [n] passes of the loop. *)
Fixpoint advance_n (n : nat) (g : gen) : gen :=
  match n with
  | O => g
  | S n' => advance_n n' (advance g)
  end.

(** The random words consumed by the batches before the [k]-th. *)
Fixpoint words_before (arr : array) (batch_size : Z) (k : nat) : nat :=
  match k with
  | O => 0
  | S k' => words_before arr batch_size k'
            + entries (raw_batch arr batch_size k')
  end.

(** The same count along the frames of any generator. *)
Fixpoint words_used (g : gen) (k : nat) : nat :=
  match k with
  | O => 0
  | S k' => words_used g k' + entries (selected (advance_n k' g))
  end.

(** The float [p] is the number [t / 2^53], exactly. *)
Definition value53 (p : spec_float) (t : Z) : Prop :=
  match p with
  | S754_zero _ => t = 0
  | S754_finite false m e => -53 <= e /\ t = Zpos m * 2 ^ (e + 53)
  | _ => False
  end.

Definition value53b (p : spec_float) (t : Z) : bool :=
  match p with
  | S754_zero _ => t =? 0
  | S754_finite false m e => (-53 <=? e) && (t =? Zpos m * 2 ^ (e + 53))
  | _ => false
  end.

(** What is checked of the probability a pixel is drawn with. *)
Definition pixel_draw_check (x : Z) : bool :=
  let t := threshold (normalize_pixel x) in
  value53b (normalize_pixel x) t
  && (0 <=? t) && (t <=? 2 ^ 53)
  && (Z.abs (255 * t - x * 2 ^ 53) <=? x * 2 ^ 29).

(** The draws of one row and of one array from the words [ws], the first
    entry drawn from word [pos]. *)
Fixpoint draw_row (ws : nat -> N) (pos : nat) (ps : list spec_float) : list Z :=
  match ps with
  | [] => []
  | p :: ps' => bernoulli_value (ws pos) p :: draw_row ws (S pos) ps'
  end.

Fixpoint draw_array (ws : nat -> N) (pos : nat) (pss : list (list spec_float))
    : array :=
  match pss with
  | [] => []
  | ps :: pss' => draw_row ws pos ps :: draw_array ws (pos + length ps) pss'
  end.

(** The figure [plot(samples[idx, ])] when both steps succeed. *)
Definition figure_of (samples : list (list spec_float)) (idx : list Z) : figure :=
  match rbind (take_rows samples idx) plot with
  | Ok fig => fig
  | Raise _ => []
  end.

(** The file the [i]-th figure is written to. *)
Definition figure_path (i : Z) : string :=
  format1 (path_join out_dir "{}.png") (zfill 3 (str i)).

(** What one iteration of the loop does to [i], to the session and to the
    trace when nothing raises, as functions of the iteration number. *)
Definition renders (np t : Z) : bool := t mod np =? 0.

Definition step_i (np t i : Z) : Z := if renders np t then i + 1 else i.

Definition step_tf (np t : Z) (st : tf_state) : tf_state :=
  {| tf_updates := S (tf_updates st);
     tf_runs := if renders np t then S (tf_runs st) else tf_runs st |}.

Definition iteration_events (mo : tf_state -> list (list spec_float))
    (np : Z) (idx : list Z) (t i : Z) (st : tf_state) : list event :=
  (if renders np t
   then [EvSessRun; EvSavefig (figure_path i) (figure_of (mo st) idx); EvClose]
   else [])
  ++ [EvNextBatch; EvUpdate; EvPrintProgress].

Fixpoint loop_events (mo : tf_state -> list (list spec_float))
    (np : Z) (idx : list Z) (ts : list Z) (i : Z) (st : tf_state)
    : list event :=
  match ts with
  | [] => []
  | t :: ts' =>
      iteration_events mo np idx t i st
        ++ loop_events mo np idx ts' (step_i np t i) (step_tf np t st)
  end.

Fixpoint final_i (np : Z) (ts : list Z) (i : Z) : Z :=
  match ts with
  | [] => i
  | t :: ts' => final_i np ts' (step_i np t i)
  end.

Fixpoint final_tf (np : Z) (ts : list Z) (st : tf_state) : tf_state :=
  match ts with
  | [] => st
  | t :: ts' => final_tf np ts' (step_tf np t st)
  end.

(** The loop's events when the iteration count is [blocks] times the
    printing period [n]: each period opens with one rendering and then
    holds [n] batch, update, progress triples. *)
Fixpoint block_events (mo : tf_state -> list (list spec_float))
    (idx : list Z) (n blocks : nat) (i : Z) (st : tf_state) : list event :=
  match blocks with
  | O => []
  | S blocks' =>
      [EvSessRun; EvSavefig (figure_path i) (figure_of (mo st) idx); EvClose]
        ++ concat (replicate n [EvNextBatch; EvUpdate; EvPrintProgress])
        ++ block_events mo idx n blocks' (i + 1)
             {| tf_updates := tf_updates st + n; tf_runs := S (tf_runs st) |}
  end.

(** The calls made before the loop is entered, up to the draw of [idx]. *)
Definition prelude_events : list event :=
  [EvDefine "plot"; EvSetSeed 42; EvDefine "generator"; EvLoadData data_dir;
   EvNewGenerator; EvPlaceholder; EvDefine "generative_network"; EvBuildModel;
   EvDefine "discriminative_network"; EvNewInference; EvNewInference;
   EvInitialize 15000 1000; EvGetSession; EvInitVariables].

(** The state the notebook starts in: some file system, some seed state of
    the random generator, a fresh session and an empty trace. *)
Definition initial_world (paths : gset string) (r : rng) : world :=
  {| w_os := {| os_paths := paths; os_calls := [] |};
     w_rng := r;
     w_tf := {| tf_updates := 0; tf_runs := 0 |};
     w_trace := [] |}.

(** The generator fits the placeholder it feeds: pixels in [0, 255], rows
    of 784 elements, at least [M] rows, batch size [M]. *)
Definition gen_ok (g : gen) : Prop :=
  Forall (Forall pixel) (gen_array g) /\
  Forall (fun r => length r = 784%nat) (gen_array g) /\
  gen_batch_size g = M /\
  M <= shape0 (gen_array g) /\
  0 <= gen_start g <= shape0 (gen_array g).

Definition idx_ok (idx : list Z) : Prop :=
  length idx = 16%nat /\ Forall (fun i => 0 <= i < M) idx.

(** A small well-formed input, used to instantiate the statements: 128
    blank images, a model that outputs blank images, a constant random
    stream. *)
Definition sample_data : array := replicate 128 (replicate 784 0).

Definition sample_output (st : tf_state) : list (list spec_float) :=
  replicate 128 (replicate 784 f32_zero).

Definition sample_rng : rng := {| rng_words := fun _ => 5%N; rng_pos := 0 |}.

(** * Properties *)

Lemma slice_between {A} (a : list A) (lo hi : Z) :
  0 <= lo -> lo <= hi -> hi <= shape0 a ->
  slice a (Some lo) (Some hi) = take (Z.to_nat (hi - lo)) (drop (Z.to_nat lo) a).
Proof.
  intros Hlo Hle Hhi. unfold slice, clip_index.
  destruct (Z.ltb_spec lo 0); [lia|].
  destruct (Z.ltb_spec hi 0); [lia|].
  rewrite !Z.min_l by lia. reflexivity.
Qed.

Lemma slice_from {A} (a : list A) (lo : Z) :
  0 <= lo -> lo <= shape0 a ->
  slice a (Some lo) None = drop (Z.to_nat lo) a.
Proof.
  intros Hlo Hhi. unfold slice, clip_index.
  destruct (Z.ltb_spec lo 0); [lia|].
  rewrite Z.min_l by lia.
  apply take_ge. rewrite length_drop. unfold shape0 in *. lia.
Qed.

Lemma slice_upto {A} (a : list A) (hi : Z) :
  0 <= hi -> hi <= shape0 a ->
  slice a None (Some hi) = take (Z.to_nat hi) a.
Proof.
  intros Hlo Hhi. unfold slice, clip_index.
  destruct (Z.ltb_spec hi 0); [lia|].
  rewrite Z.min_l by lia. rewrite Z.sub_0_r. reflexivity.
Qed.

Section Cyclic.
Variable arr : array.
Variable batch_size : Z.
Hypothesis Hpos : 1 <= batch_size.
Hypothesis Hfit : batch_size <= shape0 arr.

Let N := shape0 arr.

Lemma select_batch_start (s : Z) :
  0 <= s <= N ->
  let s' := snd (select_batch arr batch_size s) in
  0 <= s' <= N /\ s' mod N = (s + batch_size) mod N.
Proof.
  intros Hs. unfold select_batch. fold N.
  destruct (Z.leb_spec (s + batch_size - N) 0); cbn [fst snd].
  - split; [lia | reflexivity].
  - split; [lia|].
    rewrite <- (Z.mod_add (s + batch_size - N) 1 N) by lia.
    f_equal. lia.
Qed.

Lemma start_at_inv (k : nat) :
  0 <= start_at arr batch_size k <= N /\
  start_at arr batch_size k mod N = (Z.of_nat k * batch_size) mod N.
Proof.
  induction k as [|k [IHb IHm]].
  - simpl. split; [subst N; unfold shape0; lia | reflexivity].
  - cbn [start_at].
    destruct (select_batch_start (start_at arr batch_size k) IHb) as [Hb Hm].
    split; [exact Hb|].
    rewrite Hm. rewrite Z.add_mod, IHm, <- Z.add_mod by lia.
    f_equal. lia.
Qed.

Lemma select_batch_length (s : Z) :
  0 <= s <= N ->
  length (fst (select_batch arr batch_size s)) = Z.to_nat batch_size.
Proof.
  intros Hs. unfold select_batch. fold N.
  destruct (Z.leb_spec (s + batch_size - N) 0); cbn [fst snd].
  - rewrite slice_between by (fold N; lia).
    rewrite length_take, length_drop. subst N. unfold shape0 in *. lia.
  - rewrite slice_from, slice_upto by (fold N; lia).
    rewrite length_app, length_take, length_drop.
    subst N. unfold shape0 in *. lia.
Qed.

Lemma select_batch_lookup (s : Z) (j : nat) :
  0 <= s <= N -> Z.of_nat j < batch_size ->
  fst (select_batch arr batch_size s) !! j
  = arr !! Z.to_nat ((s + Z.of_nat j) mod N).
Proof.
  intros Hs Hj. unfold select_batch. fold N.
  destruct (Z.leb_spec (s + batch_size - N) 0); cbn [fst snd].
  - rewrite slice_between by (fold N; lia).
    rewrite lookup_take_lt by lia. rewrite lookup_drop.
    rewrite Z.mod_small by lia. f_equal. lia.
  - rewrite slice_from, slice_upto by (fold N; lia).
    destruct (Z.lt_ge_cases (s + Z.of_nat j) N) as [Hlt|Hge].
    + rewrite lookup_app_l
        by (rewrite length_drop; subst N; unfold shape0 in *; lia).
      rewrite lookup_drop, Z.mod_small by lia. f_equal. lia.
    + rewrite lookup_app_r
        by (rewrite length_drop; subst N; unfold shape0 in *; lia).
      rewrite length_drop.
      rewrite lookup_take_lt by (subst N; unfold shape0 in *; lia).
      rewrite <- (Z.mod_add _ (-1) N), Z.mod_small by lia.
      f_equal. subst N. unfold shape0 in *. lia.
Qed.

Lemma raw_batch_lookup (k j : nat) :
  Z.of_nat j < batch_size ->
  raw_batch arr batch_size k !! j
  = arr !! Z.to_nat ((Z.of_nat k * batch_size + Z.of_nat j) mod N).
Proof.
  intros Hj. unfold raw_batch.
  destruct (start_at_inv k) as [Hb Hm].
  rewrite select_batch_lookup by assumption.
  do 2 f_equal.
  rewrite Z.add_mod, Hm, <- Z.add_mod by lia. reflexivity.
Qed.

Lemma raw_batch_length (k : nat) :
  length (raw_batch arr batch_size k) = Z.to_nat batch_size.
Proof.
  unfold raw_batch. apply select_batch_length, start_at_inv.
Qed.
End Cyclic.

(** ** Running statements: generic facts *)

Lemma map_py_Forall2 {S A B} (f : A -> Py S B) (R : A -> B -> Prop) :
  (forall x s y s', f x s = Ok (y, s') -> R x y) ->
  forall xs s ys s', map_py f xs s = Ok (ys, s') -> Forall2 R xs ys.
Proof.
  intros Hf. induction xs as [|x xs IH]; cbn [map_py]; intros s ys s' H.
  - injection H as <- <-. constructor.
  - unfold bind in H.
    destruct (f x s) as [[y s1]|] eqn:E1; [|discriminate].
    destruct (map_py f xs s1) as [[ys1 s2]|] eqn:E2; [|discriminate].
    injection H as <- <-. constructor; eauto.
Qed.

Lemma map_py_total {S A B} (f : A -> Py S B) (P : A -> Prop) :
  (forall x s, P x -> exists y s', f x s = Ok (y, s')) ->
  forall xs s, Forall P xs -> exists ys s', map_py f xs s = Ok (ys, s').
Proof.
  intros Hf. induction xs as [|x xs IH]; cbn [map_py]; intros s HP.
  - eexists _, _. reflexivity.
  - inversion HP as [|? ? Hx Hxs]; subst.
    destruct (Hf x s Hx) as (y & s1 & E1).
    destruct (IH s1 Hxs) as (ys & s2 & E2).
    exists (y :: ys), s2. unfold bind. rewrite E1, E2. reflexivity.
Qed.

(** ** Normalisation and the Bernoulli draw *)

Lemma normalize_pixel_in_unit (x : Z) :
  pixel x -> in_unit (normalize_pixel x) = true.
Proof.
  intros [Hlo Hhi].
  assert (Hall : forallb (fun n => in_unit (normalize_pixel (Z.of_nat n)))
                         (seq 0 256) = true) by (vm_compute; reflexivity).
  rewrite forallb_forall in Hall.
  rewrite <- (Z2Nat.id x Hlo). apply Hall, in_seq. lia.
Qed.

Lemma existsb_none {A} (f : A -> bool) (l : list A) :
  Forall (fun x => f x = false) l -> existsb f l = false.
Proof.
  induction 1 as [|x l Hx _ IH]; simpl; [reflexivity|].
  now rewrite Hx, IH.
Qed.

Lemma normalize_in_unit (batch : array) :
  Forall (Forall pixel) batch ->
  Forall (Forall (fun p => in_unit p = true)) (normalize batch).
Proof.
  intros H. unfold normalize. rewrite Forall_fmap.
  eapply Forall_impl; [exact H|]. intros r Hr. cbn.
  rewrite Forall_fmap. eapply Forall_impl; [exact Hr|].
  intros x Hx. cbn. now apply normalize_pixel_in_unit.
Qed.

Lemma bernoulli_spec (p : spec_float) (r : rng) :
  exists b r', bernoulli p r = Ok (b, r') /\ (b = 0 \/ b = 1) /\
               rng_pos r' = S (rng_pos r).
Proof.
  unfold bernoulli, bernoulli_value, next_word, bind, ret.
  eexists _, _. split; [reflexivity|]. split; [|reflexivity].
  destruct (_ <? _); auto.
Qed.

(** The draws of a row, of an array: which word each entry is drawn from. *)
Lemma bernoulli_row_exact (ps : list spec_float) :
  forall r, map_py bernoulli ps r
            = Ok (draw_row (rng_words r) (rng_pos r) ps,
                  {| rng_words := rng_words r;
                     rng_pos := rng_pos r + length ps |}).
Proof.
  induction ps as [|p ps IH]; intros r; cbn [map_py draw_row length].
  - unfold ret. destruct r as [ws pos]. cbn [rng_words rng_pos].
    rewrite Nat.add_0_r. reflexivity.
  - unfold bind at 1. unfold bernoulli at 1. unfold bind at 1.
    unfold next_word, ret at 1. unfold bind. rewrite IH.
    cbn [rng_words rng_pos]. unfold ret. do 3 f_equal. lia.
Qed.

Lemma bernoulli_array_exact (pss : list (list spec_float)) :
  forall r, map_py (map_py bernoulli) pss r
            = Ok (draw_array (rng_words r) (rng_pos r) pss,
                  {| rng_words := rng_words r;
                     rng_pos := rng_pos r + entries pss |}).
Proof.
  induction pss as [|ps pss IH]; intros r; cbn [map_py draw_array].
  - unfold ret, entries. destruct r as [ws pos]. cbn [rng_words rng_pos].
    cbn. rewrite Nat.add_0_r. reflexivity.
  - unfold bind. rewrite bernoulli_row_exact, IH.
    cbn [rng_words rng_pos]. unfold ret, entries. cbn [concat].
    rewrite length_app. do 3 f_equal. lia.
Qed.

Lemma draw_row_length (ws : nat -> N) (ps : list spec_float) :
  forall pos, length (draw_row ws pos ps) = length ps.
Proof.
  induction ps as [|p ps IH]; intros pos; cbn [draw_row length];
    [reflexivity|]. now rewrite IH.
Qed.

Lemma draw_row_lookup (ws : nat -> N) (ps : list spec_float) :
  forall pos j p, ps !! j = Some p ->
    draw_row ws pos ps !! j = Some (bernoulli_value (ws (pos + j)%nat) p).
Proof.
  induction ps as [|q ps IH]; intros pos j p Hj; [discriminate|].
  destruct j as [|j]; cbn [draw_row].
  - injection Hj as ->. rewrite Nat.add_0_r. reflexivity.
  - change ((bernoulli_value (ws pos) q :: draw_row ws (S pos) ps) !! S j)
      with (draw_row ws (S pos) ps !! j).
    rewrite (IH (S pos) j p Hj). do 3 f_equal. lia.
Qed.

Lemma draw_array_lookup (ws : nat -> N) (pss : list (list spec_float)) :
  forall pos i ps, pss !! i = Some ps ->
    draw_array ws pos pss !! i
    = Some (draw_row ws (pos + entries (take i pss)) ps).
Proof.
  induction pss as [|qs pss IH]; intros pos i ps Hi; [discriminate|].
  destruct i as [|i]; cbn [draw_array].
  - injection Hi as ->. unfold entries. cbn. rewrite Nat.add_0_r. reflexivity.
  - change ((draw_row ws pos qs :: draw_array ws (pos + length qs) pss) !! S i)
      with (draw_array ws (pos + length qs) pss !! i).
    rewrite (IH (pos + length qs)%nat i ps Hi). do 2 f_equal.
    unfold entries. cbn [take concat]. rewrite length_app. lia.
Qed.

Lemma draw_array_shape (ws : nat -> N) (pss : list (list spec_float)) :
  forall pos, Forall2 (fun ps y => length y = length ps)
                      pss (draw_array ws pos pss).
Proof.
  induction pss as [|ps pss IH]; intros pos; cbn [draw_array]; constructor.
  - apply draw_row_length.
  - apply IH.
Qed.

(** The probability a pixel is drawn with: the float32 quotient, as a
    count of the 2^53 samples, against the exact quotient x / 255. *)
Lemma pixel_draw_checked (x : Z) : pixel x -> pixel_draw_check x = true.
Proof.
  intros [Hlo Hhi].
  assert (Hall : forallb (fun n => pixel_draw_check (Z.of_nat n))
                         (seq 0 256) = true) by (vm_compute; reflexivity).
  rewrite forallb_forall in Hall.
  rewrite <- (Z2Nat.id x Hlo). apply Hall, in_seq. lia.
Qed.

Lemma value53b_spec (p : spec_float) (t : Z) :
  value53b p t = true -> value53 p t.
Proof.
  unfold value53b, value53. destruct p as [sg|sg| |sg m e]; try discriminate.
  - apply Z.eqb_eq.
  - destruct sg; [discriminate|]. intros H.
    apply andb_true_iff in H as [He Ht].
    split; [now apply Z.leb_le | now apply Z.eqb_eq].
Qed.

Lemma pixel_draw_spec (x : Z) :
  pixel x ->
  exists t,
    value53 (normalize_pixel x) t /\
    0 <= t <= 2 ^ 53 /\
    Z.abs (255 * t - x * 2 ^ 53) <= x * 2 ^ 29 /\
    forall w, bernoulli_value w (normalize_pixel x)
              = if Z.of_N (w mod 2 ^ 53) <? t then 1 else 0.
Proof.
  intros Hx. pose proof (pixel_draw_checked x Hx) as H.
  unfold pixel_draw_check in H. cbv zeta in H.
  apply andb_true_iff in H as [H Hclose].
  apply andb_true_iff in H as [H Hhi].
  apply andb_true_iff in H as [Hval Hlo].
  exists (threshold (normalize_pixel x)).
  split; [now apply value53b_spec|].
  split; [split; [now apply Z.leb_le | now apply Z.leb_le]|].
  split; [now apply Z.leb_le|].
  intros w. reflexivity.
Qed.

Lemma bernoulli_row_spec (ps : list spec_float) (r : rng) :
  exists bs r', map_py bernoulli ps r = Ok (bs, r') /\
    Forall2 (fun _ b => bit b) ps bs /\
    rng_pos r' = (rng_pos r + length ps)%nat.
Proof.
  revert r. induction ps as [|p ps IH]; intros r; cbn [map_py].
  - exists [], r. repeat split; [constructor | simpl; lia].
  - destruct (bernoulli_spec p r) as (b & r1 & E1 & Hb & Hpos1).
    destruct (IH r1) as (bs & r2 & E2 & Hbs & Hpos2).
    exists (b :: bs), r2. unfold bind. rewrite E1, E2.
    repeat split; [constructor; assumption | simpl; lia].
Qed.

Lemma bernoulli_array_spec (p : list (list spec_float)) (r : rng) :
  exists b r', map_py (map_py bernoulli) p r = Ok (b, r') /\
    Forall2 (Forall2 (fun _ y => bit y)) p b /\
    rng_pos r' = (rng_pos r + entries p)%nat.
Proof.
  revert r. induction p as [|ps p IH]; intros r; cbn [map_py].
  - exists [], r. repeat split; [constructor | unfold entries; simpl; lia].
  - destruct (bernoulli_row_spec ps r) as (bs & r1 & E1 & Hb & Hpos1).
    destruct (IH r1) as (b & r2 & E2 & Hbs & Hpos2).
    exists (bs :: b), r2. unfold bind. rewrite E1, E2.
    repeat split; [constructor; assumption|].
    unfold entries in *. simpl. rewrite length_app. lia.
Qed.

Lemma in_unit_tests (x : spec_float) :
  in_unit x = true -> SFltb x f32_zero = false /\ SFltb f32_one x = false.
Proof.
  unfold in_unit. intros H.
  destruct (SFltb x f32_zero), (SFltb f32_one x);
    simpl in H; try discriminate; auto.
Qed.

Lemma binomial1_spec (p : list (list spec_float)) (r : rng) :
  Forall (Forall (fun x => in_unit x = true)) p ->
  exists b r', binomial1 p r = Ok (b, r') /\
    Forall2 (Forall2 (fun _ y => bit y)) p b /\
    rng_pos r' = (rng_pos r + entries p)%nat.
Proof.
  intros Hp. unfold binomial1.
  rewrite (existsb_none (existsb (fun x => SFltb x f32_zero))).
  rewrite (existsb_none (existsb (fun x => SFltb f32_one x))).
  - apply bernoulli_array_spec.
  - eapply Forall_impl; [exact Hp|]. intros ps Hps. apply existsb_none.
    eapply Forall_impl; [exact Hps|]. intros x Hx. apply in_unit_tests, Hx.
  - eapply Forall_impl; [exact Hp|]. intros ps Hps. apply existsb_none.
    eapply Forall_impl; [exact Hps|]. intros x Hx. apply in_unit_tests, Hx.
Qed.

(** ** The generator, one [next] at a time *)

Lemma slice_Forall {A} (P : A -> Prop) (a : list A) (lo hi : option Z) :
  Forall P a -> Forall P (slice a lo hi).
Proof. intros H. unfold slice. apply Forall_take, Forall_drop, H. Qed.

Lemma select_batch_Forall (P : list Z -> Prop) (arr : array) (bs s : Z) :
  Forall P arr -> Forall P (fst (select_batch arr bs s)).
Proof.
  intros H. unfold select_batch.
  destruct (_ <=? 0); cbn [fst].
  - now apply slice_Forall.
  - apply Forall_app. split; now apply slice_Forall.
Qed.

Lemma next_unfold (g : gen) (r : rng) :
  next g r =
  match binomial1 (normalize (selected g)) r with
  | Ok (b, r') => Ok (b, advance g, r')
  | Raise e => Raise e
  end.
Proof.
  unfold next, selected, advance.
  destruct (select_batch _ _ _) as [batch start']. cbn [fst snd].
  unfold bind, ret. destruct (binomial1 _ r) as [[b r']|]; reflexivity.
Qed.

Lemma next_spec (g : gen) (r : rng) :
  Forall (Forall pixel) (gen_array g) ->
  exists b r', next g r = Ok (b, advance g, r') /\
    Forall2 (Forall2 (fun _ y => bit y)) (normalize (selected g)) b /\
    rng_pos r' = (rng_pos r + entries (selected g))%nat.
Proof.
  intros Hpx. rewrite next_unfold.
  destruct (binomial1_spec (normalize (selected g)) r) as (b & r' & E & Hb & Hpos).
  { apply normalize_in_unit, select_batch_Forall, Hpx. }
  exists b, r'. rewrite E. repeat split; [exact Hb|].
  rewrite Hpos. f_equal. unfold entries, normalize.
  clear. induction (selected g) as [|x l IH]; simpl; [reflexivity|].
  rewrite !length_app, length_map, IH. reflexivity.
Qed.

Lemma next_inv (g : gen) (r : rng) (b : array) (g' : gen) (r' : rng) :
  next g r = Ok (b, g', r') ->
  g' = advance g /\
  Forall2 (Forall2 (fun _ y => bit y)) (normalize (selected g)) b.
Proof.
  rewrite next_unfold. unfold binomial1.
  destruct (existsb _ _); [discriminate|].
  destruct (existsb _ _); [discriminate|].
  destruct (bernoulli_array_spec (normalize (selected g)) r)
    as (b0 & r0 & E & Hb & _).
  rewrite E. intros H. injection H as <- <- <-. auto.
Qed.

Lemma advance_n_advance (n : nat) (g : gen) :
  advance_n n (advance g) = advance (advance_n n g).
Proof.
  revert g. induction n as [|n IH]; intros g; simpl; [reflexivity|].
  apply IH.
Qed.

Lemma advance_n_generator (arr : array) (bs : Z) (k : nat) :
  advance_n k (generator arr bs)
  = {| gen_array := arr; gen_batch_size := bs;
       gen_start := start_at arr bs k |}.
Proof.
  induction k as [|k IH]; [reflexivity|].
  cbn [advance_n]. rewrite advance_n_advance, IH. reflexivity.
Qed.

Lemma selected_generator (arr : array) (bs : Z) (k : nat) :
  selected (advance_n k (generator arr bs)) = raw_batch arr bs k.
Proof. rewrite advance_n_generator. reflexivity. Qed.

(** Whatever [n] calls of [next] yield, the [k]-th batch is the binarised
    image of the rows selected in the [k]-th pass. *)
Lemma next_n_inv (n : nat) :
  forall g r batches g' r',
    next_n n g r = Ok (batches, g', r') ->
    g' = advance_n n g /\ length batches = n /\
    forall k b, batches !! k = Some b ->
      Forall2 (Forall2 (fun _ y => bit y))
              (normalize (selected (advance_n k g))) b.
Proof.
  induction n as [|n IH]; intros g r batches g' r' H; cbn [next_n] in H.
  - injection H as <- <- <-. repeat split; auto. intros k b Hk. discriminate.
  - unfold bind in H.
    destruct (next g r) as [[[b1 g1] r1]|] eqn:E1; [|discriminate].
    destruct (next_n n g1 r1) as [[[bs g2] r2]|] eqn:E2; [|discriminate].
    injection H as <- <- <-.
    destruct (next_inv _ _ _ _ _ E1) as [-> Hb1].
    destruct (IH _ _ _ _ _ E2) as (-> & Hlen & Hbs).
    repeat split; [simpl; lia|].
    intros [|k] b Hk; simpl in Hk.
    + injection Hk as <-. exact Hb1.
    + apply (Hbs k b Hk).
Qed.

Lemma next_n_total (n : nat) :
  forall g r, Forall (Forall pixel) (gen_array g) ->
    exists batches r', next_n n g r = Ok (batches, advance_n n g, r').
Proof.
  induction n as [|n IH]; intros g r Hpx; cbn [next_n advance_n].
  - eexists _, _. reflexivity.
  - destruct (next_spec g r Hpx) as (b & r1 & E1 & _).
    destruct (IH (advance g) r1) as (bs & r2 & E2); [exact Hpx|].
    exists (b :: bs), r2. unfold bind. rewrite E1, E2. reflexivity.
Qed.

Lemma entries_normalize (a : array) : entries (normalize a) = entries a.
Proof.
  unfold entries, normalize.
  induction a as [|x l IH]; simpl; [reflexivity|].
  rewrite !length_app, length_map, IH. reflexivity.
Qed.

Lemma binomial1_exact (p : list (list spec_float)) (r : rng) :
  Forall (Forall (fun x => in_unit x = true)) p ->
  binomial1 p r
  = Ok (draw_array (rng_words r) (rng_pos r) p,
        {| rng_words := rng_words r; rng_pos := rng_pos r + entries p |}).
Proof.
  intros Hp. unfold binomial1.
  rewrite (existsb_none (existsb (fun x => SFltb x f32_zero))).
  rewrite (existsb_none (existsb (fun x => SFltb f32_one x))).
  - apply bernoulli_array_exact.
  - eapply Forall_impl; [exact Hp|]. intros ps Hps. apply existsb_none.
    eapply Forall_impl; [exact Hps|]. intros x Hx. apply in_unit_tests, Hx.
  - eapply Forall_impl; [exact Hp|]. intros ps Hps. apply existsb_none.
    eapply Forall_impl; [exact Hps|]. intros x Hx. apply in_unit_tests, Hx.
Qed.

(** One call of [next], exactly: the batch is the draw of the scaled rows
    from the next words of the stream, one word per entry, row by row. *)
Lemma next_exact (g : gen) (r : rng) :
  Forall (Forall pixel) (gen_array g) ->
  next g r
  = Ok (draw_array (rng_words r) (rng_pos r) (normalize (selected g)),
        advance g,
        {| rng_words := rng_words r;
           rng_pos := rng_pos r + entries (selected g) |}).
Proof.
  intros Hpx. rewrite next_unfold, binomial1_exact.
  - rewrite entries_normalize. reflexivity.
  - apply normalize_in_unit, select_batch_Forall, Hpx.
Qed.

Lemma words_used_shift (g : gen) (k : nat) :
  words_used g (S k) = (entries (selected g) + words_used (advance g) k)%nat.
Proof.
  induction k as [|k IH]; [cbn; lia|].
  change (words_used g (S (S k)))
    with (words_used g (S k) + entries (selected (advance_n (S k) g)))%nat.
  rewrite IH. cbn [words_used advance_n]. lia.
Qed.

Lemma words_used_generator (arr : array) (bs : Z) (k : nat) :
  words_used (generator arr bs) k = words_before arr bs k.
Proof.
  induction k as [|k IH]; [reflexivity|].
  cbn [words_used words_before]. now rewrite IH, selected_generator.
Qed.

(** [n] calls of [next], exactly. *)
Lemma next_n_exact (n : nat) :
  forall g r, Forall (Forall pixel) (gen_array g) ->
    exists batches,
      next_n n g r
      = Ok (batches, advance_n n g,
            {| rng_words := rng_words r;
               rng_pos := rng_pos r + words_used g n |}) /\
      length batches = n /\
      forall k, (k < n)%nat ->
        batches !! k
        = Some (draw_array (rng_words r) (rng_pos r + words_used g k)
                           (normalize (selected (advance_n k g)))).
Proof.
  induction n as [|n IH]; intros g r Hpx.
  - exists []. cbn [next_n advance_n words_used]. unfold ret.
    destruct r as [ws pos]. cbn [rng_words rng_pos]. rewrite Nat.add_0_r.
    repeat split. intros k Hk. lia.
  - destruct (IH (advance g)
                 {| rng_words := rng_words r;
                    rng_pos := rng_pos r + entries (selected g) |} Hpx)
      as (bs & E & Hlen & Hbs).
    cbn [rng_words rng_pos] in E, Hbs.
    exists (draw_array (rng_words r) (rng_pos r) (normalize (selected g)) :: bs).
    split; [|split].
    + cbn [next_n advance_n]. unfold bind. rewrite next_exact by exact Hpx.
      rewrite E. unfold ret. rewrite words_used_shift.
      do 3 f_equal. lia.
    + cbn [length]. now rewrite Hlen.
    + intros [|k] Hk.
      * cbn [words_used advance_n]. rewrite Nat.add_0_r. reflexivity.
      * change ((draw_array (rng_words r) (rng_pos r)
                   (normalize (selected g)) :: bs) !! S k) with (bs !! k).
        rewrite Hbs by lia. rewrite words_used_shift. cbn [advance_n].
        do 2 f_equal. lia.
Qed.

Lemma Forall2_bits {A} (p : list (list A)) (b : array) :
  Forall2 (Forall2 (fun _ y => bit y)) p b -> Forall (Forall bit) b.
Proof.
  induction 1 as [|ps bs p b Hrow _ IH]; constructor; [|exact IH].
  clear -Hrow. induction Hrow; constructor; assumption.
Qed.

(** C1.  For an array of N rows and 1 <= batch_size <= N, the rows selected
    for the k-th batch (before normalisation and binarisation) are the
    batch_size rows of the array at positions (k * batch_size + j) mod N,
    j = 0 .. batch_size - 1, in that order: a batch that runs past the end
    continues at the head of the array.  The k-th batch the generator
    yields is the element-wise binarisation of exactly these rows. *)
Theorem generator_cyclic_selection (arr : array) (batch_size : Z) (k : nat) :
  1 <= batch_size -> batch_size <= shape0 arr ->
  Some <$> raw_batch arr batch_size k
  = (fun j : nat =>
       arr !! Z.to_nat ((Z.of_nat k * batch_size + Z.of_nat j) mod shape0 arr))
    <$> seq 0 (Z.to_nat batch_size) /\
  forall r batches g r' b,
    next_n (S k) (generator arr batch_size) r = Ok (batches, g, r') ->
    batches !! k = Some b ->
    Forall2 (Forall2 (fun _ y => bit y))
            (normalize (raw_batch arr batch_size k)) b.
Proof.
  intros Hpos Hfit. split.
  - apply list_eq. intros j.
    rewrite !list_lookup_fmap.
    destruct (decide (j < Z.to_nat batch_size)%nat) as [Hj|Hj].
    + rewrite lookup_seq_lt by assumption.
      destruct (lookup_lt_is_Some_2 (raw_batch arr batch_size k) j) as [x Hx].
      { rewrite raw_batch_length by assumption. exact Hj. }
      rewrite Hx. cbn [fmap option_fmap option_map Nat.add]. f_equal.
      rewrite <- raw_batch_lookup by lia. symmetry. exact Hx.
    + rewrite lookup_seq_ge by lia.
      rewrite lookup_ge_None_2; [reflexivity|].
      rewrite raw_batch_length by assumption. lia.
  - intros r batches g r' b Hrun Hb.
    destruct (next_n_inv _ _ _ _ _ _ Hrun) as (_ & _ & Hbs).
    rewrite <- selected_generator. apply (Hbs k b Hb).
Qed.

Lemma generator_cyclic_selection_witness :
  1 <= 2 /\ 2 <= shape0 [[10]; [11]; [12]] /\
  (Some <$> raw_batch [[10]; [11]; [12]] 2 1
   = (fun j : nat =>
        [[10]; [11]; [12]] !!
          Z.to_nat ((Z.of_nat 1 * 2 + Z.of_nat j) mod shape0 [[10]; [11]; [12]]))
     <$> seq 0 (Z.to_nat 2) /\
   forall r batches g r' b,
     next_n 2 (generator [[10]; [11]; [12]] 2) r = Ok (batches, g, r') ->
     batches !! 1%nat = Some b ->
     Forall2 (Forall2 (fun _ y => bit y))
             (normalize (raw_batch [[10]; [11]; [12]] 2 1)) b).
Proof.
  split; [lia|]. split; [vm_compute; discriminate|].
  apply (generator_cyclic_selection [[10]; [11]; [12]] 2 1).
  - lia.
  - vm_compute; discriminate.
Defined.

(** C2.  For an array of N rows and 1 <= batch_size <= N: each time the
    generator is about to yield, its start pointer lies in [0, N], and
    every batch has exactly batch_size rows, on a wrap-around pass too,
    both as selected and as finally yielded. *)
Theorem generator_start_and_batch_rows (arr : array) (batch_size : Z) (k : nat) :
  1 <= batch_size -> batch_size <= shape0 arr ->
  0 <= gen_start (advance_n (S k) (generator arr batch_size)) <= shape0 arr /\
  length (raw_batch arr batch_size k) = Z.to_nat batch_size /\
  forall r batches g r',
    next_n (S k) (generator arr batch_size) r = Ok (batches, g, r') ->
    0 <= gen_start g <= shape0 arr /\
    Forall (fun b : array => length b = Z.to_nat batch_size) batches.
Proof.
  intros Hpos Hfit.
  assert (Hstart : forall n,
    0 <= gen_start (advance_n n (generator arr batch_size)) <= shape0 arr).
  { intros n. rewrite advance_n_generator. cbn [gen_start].
    apply start_at_inv; assumption. }
  split; [apply Hstart|].
  split; [apply raw_batch_length; assumption|].
  intros r batches g r' H.
  destruct (next_n_inv _ _ _ _ _ _ H) as (-> & _ & Hbs).
  split; [apply Hstart|].
  apply Forall_lookup. intros j b Hj.
  specialize (Hbs j b Hj). apply Forall2_length in Hbs.
  rewrite <- Hbs. unfold normalize. rewrite length_map, selected_generator.
  apply raw_batch_length; assumption.
Qed.

Lemma generator_start_and_batch_rows_witness :
  1 <= 2 /\ 2 <= shape0 [[10]; [11]; [12]] /\
  (0 <= gen_start (advance_n 2 (generator [[10]; [11]; [12]] 2))
     <= shape0 [[10]; [11]; [12]] /\
   length (raw_batch [[10]; [11]; [12]] 2 1) = Z.to_nat 2 /\
   forall r batches g r',
     next_n 2 (generator [[10]; [11]; [12]] 2) r = Ok (batches, g, r') ->
     0 <= gen_start g <= shape0 [[10]; [11]; [12]] /\
     Forall (fun b : array => length b = Z.to_nat 2) batches).
Proof.
  split; [lia|]. split; [vm_compute; discriminate|].
  apply (generator_start_and_batch_rows [[10]; [11]; [12]] 2 1).
  - lia.
  - vm_compute; discriminate.
Defined.

(** C3.  When every element of the array is an integer in [0, 255]:
    each selected batch is scaled by 1/255 into [0, 1] (in float32); the
    probability a pixel x is drawn with is that quotient, a dyadic number
    t / 2^53 within a relative 2^-24 of x / 255, and the draw gives 1 for
    exactly t of the 2^53 equally likely samples and 0 for the others; any
    number of calls of [next] succeed, and the k-th batch yielded has the
    shape of the k-th batch of selected rows and holds, at every position,
    the draw made for the scaled pixel at that position from a word of its
    own of the random stream (the words are consumed in order, one per
    entry); so every element of every batch yielded is 0 or 1. *)
Theorem generator_yields_binary_pixels
    (arr : array) (batch_size : Z) (n : nat) (r : rng) :
  Forall (Forall pixel) arr ->
  (forall k, Forall (Forall (fun p => in_unit p = true))
                    (normalize (raw_batch arr batch_size k))) /\
  (forall x, pixel x ->
     exists t,
       value53 (normalize_pixel x) t /\
       0 <= t <= 2 ^ 53 /\
       Z.abs (255 * t - x * 2 ^ 53) <= x * 2 ^ 29 /\
       forall w, bernoulli_value w (normalize_pixel x)
                 = if Z.of_N (w mod 2 ^ 53) <? t then 1 else 0) /\
  exists batches r',
    next_n n (generator arr batch_size) r
      = Ok (batches, advance_n n (generator arr batch_size), r') /\
    length batches = n /\
    Forall (Forall (Forall bit)) batches /\
    rng_words r' = rng_words r /\
    rng_pos r' = (rng_pos r + words_before arr batch_size n)%nat /\
    forall k b, batches !! k = Some b ->
      Forall2 (fun raw y => length y = length raw)
              (raw_batch arr batch_size k) b /\
      forall i j raw x,
        raw_batch arr batch_size k !! i = Some raw -> raw !! j = Some x ->
        exists y, b !! i = Some y /\
          y !! j
          = Some (bernoulli_value
                    (rng_words r
                       (rng_pos r + words_before arr batch_size k
                        + entries (take i (raw_batch arr batch_size k))
                        + j)%nat)
                    (normalize_pixel x)).
Proof.
  intros Hpx. split; [|split].
  - intros k. apply normalize_in_unit. unfold raw_batch.
    apply select_batch_Forall, Hpx.
  - exact pixel_draw_spec.
  - destruct (next_n_exact n (generator arr batch_size) r Hpx)
      as (batches & E & Hlen & Hbs).
    exists batches. eexists. split; [exact E|].
    split; [exact Hlen|]. cbn [rng_words rng_pos].
    split.
    { destruct (next_n_inv _ _ _ _ _ _ E) as (_ & _ & Hbits).
      apply Forall_lookup. intros k b Hk. eapply Forall2_bits, Hbits, Hk. }
    split; [reflexivity|].
    split; [now rewrite words_used_generator|].
    intros k b Hk.
    assert (Hlt : (k < n)%nat)
      by (rewrite <- Hlen; eapply lookup_lt_Some, Hk).
    rewrite (Hbs k Hlt) in Hk. injection Hk as <-.
    rewrite words_used_generator, selected_generator. split.
    + pose proof (draw_array_shape (rng_words r)
                    (normalize (raw_batch arr batch_size k))
                    (rng_pos r + words_before arr batch_size k)) as Hsh.
      unfold normalize in Hsh at 1. rewrite Forall2_fmap_l in Hsh.
      eapply Forall2_impl; [exact Hsh|].
      intros raw y Hy. cbn in Hy. now rewrite length_map in Hy.
    + intros i j raw x Hi Hj.
      exists (draw_row (rng_words r)
                (rng_pos r + words_before arr batch_size k
                 + entries (take i (raw_batch arr batch_size k)))
                (map normalize_pixel raw)).
      split.
      * rewrite (draw_array_lookup _ _ _ i (map normalize_pixel raw)).
        -- unfold normalize at 1. rewrite <- fmap_take.
           change (map (map normalize_pixel)
                       (take i (raw_batch arr batch_size k)))
             with (normalize (take i (raw_batch arr batch_size k))).
           rewrite entries_normalize. reflexivity.
        -- unfold normalize. rewrite list_lookup_fmap, Hi. reflexivity.
      * apply draw_row_lookup. rewrite list_lookup_fmap, Hj. reflexivity.
Qed.

Lemma generator_yields_binary_pixels_witness :
  let arr := [[0; 255]; [128; 7]] in
  let r := mk_rng (fun k => if Nat.even k then 0%N else (2 ^ 53 - 1)%N) 0 in
  Forall (Forall pixel) arr /\
  ((forall k, Forall (Forall (fun p => in_unit p = true))
                     (normalize (raw_batch arr 1 k))) /\
   (forall x, pixel x ->
      exists t,
        value53 (normalize_pixel x) t /\
        0 <= t <= 2 ^ 53 /\
        Z.abs (255 * t - x * 2 ^ 53) <= x * 2 ^ 29 /\
        forall w, bernoulli_value w (normalize_pixel x)
                  = if Z.of_N (w mod 2 ^ 53) <? t then 1 else 0) /\
   exists batches r',
     next_n 3 (generator arr 1) r
       = Ok (batches, advance_n 3 (generator arr 1), r') /\
     length batches = 3%nat /\
     Forall (Forall (Forall bit)) batches /\
     rng_words r' = rng_words r /\
     rng_pos r' = (rng_pos r + words_before arr 1 3)%nat /\
     forall k b, batches !! k = Some b ->
       Forall2 (fun raw y => length y = length raw) (raw_batch arr 1 k) b /\
       forall i j raw x,
         raw_batch arr 1 k !! i = Some raw -> raw !! j = Some x ->
         exists y, b !! i = Some y /\
           y !! j
           = Some (bernoulli_value
                     (rng_words r
                        (rng_pos r + words_before arr 1 k
                         + entries (take i (raw_batch arr 1 k)) + j)%nat)
                     (normalize_pixel x))).
Proof.
  intros arr r.
  assert (H : Forall (Forall pixel) arr)
    by (repeat constructor; unfold pixel; lia).
  split; [exact H|].
  apply (generator_yields_binary_pixels arr 1 3 r H).
Defined.

(** The draws of that run, computed: a pixel 0 stays 0 and a pixel 255
    becomes 1 whatever the sample, the pixels in between follow it. *)
Lemma generator_draws_computed :
  next_n 3 (generator [[0; 255]; [128; 7]] 1)
         (mk_rng (fun k => if Nat.even k then 0%N else (2 ^ 53 - 1)%N) 0)
  = Ok ([[[0; 1]]; [[1; 0]]; [[0; 1]]],
        advance_n 3 (generator [[0; 255]; [128; 7]] 1),
        mk_rng (fun k => if Nat.even k then 0%N else (2 ^ 53 - 1)%N) 6).
Proof.
  unfold next_n, bind, ret.
  rewrite next_exact by (repeat constructor; unfold pixel; lia).
  rewrite next_exact by (repeat constructor; unfold pixel; lia).
  rewrite next_exact by (repeat constructor; unfold pixel; lia).
  reflexivity.
Qed.

(** C6, as stated, fails: an array holding the value 256 makes the very
    first [next] raise instead of yielding. *)
Lemma generator_next_raises_on_256 :
  next (generator [[256]] 1) (mk_rng (fun _ => 0%N) 0) = Raise ValueError.
Proof. vm_compute. reflexivity. Qed.

(** C6, amended.  When every element of the array lies in [0, 255], then
    for any number of rows, any batch size (larger than the row count,
    zero or negative included) and any position of the start pointer, a
    call of [next] returns a batch after one pass of the loop body and as
    many random draws as the batch has entries, and leaves the generator
    ready for the next call; so any number of successive calls each yield
    a batch. *)
Theorem generator_next_productive (g : gen) (r : rng) (n : nat) :
  Forall (Forall pixel) (gen_array g) ->
  (exists b r', next g r = Ok (b, advance g, r') /\
     rng_pos r' = (rng_pos r + entries (selected g))%nat) /\
  (exists batches r',
     next_n n g r = Ok (batches, advance_n n g, r') /\ length batches = n).
Proof.
  intros Hpx. split.
  - destruct (next_spec g r Hpx) as (b & r' & E & _ & Hpos). eauto.
  - destruct (next_n_total n g r Hpx) as (batches & r' & E).
    exists batches, r'. split; [exact E|].
    apply (next_n_inv _ _ _ _ _ _ E).
Qed.

Lemma generator_next_productive_witness :
  Forall (Forall pixel) (gen_array (generator [[3]; [200]] 5)) /\
  ((exists b r',
      next (generator [[3]; [200]] 5) (mk_rng (fun _ => 9%N) 0)
        = Ok (b, advance (generator [[3]; [200]] 5), r') /\
      rng_pos r'
        = (rng_pos (mk_rng (fun _ => 9%N) 0)
           + entries (selected (generator [[3]; [200]]%Z 5%Z)))%nat) /\
   (exists batches r',
      next_n 4 (generator [[3]; [200]] 5) (mk_rng (fun _ => 9%N) 0)
        = Ok (batches, advance_n 4 (generator [[3]; [200]] 5), r') /\
      length batches = 4%nat)).
Proof.
  assert (H : Forall (Forall pixel) (gen_array (generator [[3]; [200]] 5)))
    by (repeat constructor; unfold pixel; lia).
  split; [exact H|].
  apply (generator_next_productive
           (generator [[3]; [200]] 5) (mk_rng (fun _ => 9%N) 0) 4 H).
Defined.

(** ** The output directory *)

Lemma setup_out_dir_absent (s : os_state) :
  out_dir ∉ os_paths s ->
  setup_out_dir s
  = Ok (tt, {| os_paths := {[out_dir]} ∪ list_to_set (parents out_dir)
                             ∪ os_paths s;
               os_calls := os_calls s
                             ++ [CallExists out_dir; CallMakedirs out_dir] |}).
Proof.
  intros Habs. unfold setup_out_dir, bind, os_path_exists, os_makedirs.
  rewrite bool_decide_eq_false_2 by exact Habs. cbn [negb os_paths os_calls].
  rewrite bool_decide_eq_false_2 by exact Habs.
  rewrite <- app_assoc. reflexivity.
Qed.

Lemma setup_out_dir_present (s : os_state) :
  out_dir ∈ os_paths s ->
  setup_out_dir s
  = Ok (tt, {| os_paths := os_paths s;
               os_calls := os_calls s ++ [CallExists out_dir] |}).
Proof.
  intros Hin. unfold setup_out_dir, bind, os_path_exists.
  rewrite bool_decide_eq_true_2 by exact Hin. reflexivity.
Qed.

Lemma setup_out_dir_returns (s : os_state) :
  exists s', setup_out_dir s = Ok (tt, s') /\ out_dir ∈ os_paths s'.
Proof.
  destruct (decide (out_dir ∈ os_paths s)) as [Hin|Habs].
  - eexists. split; [apply setup_out_dir_present, Hin | exact Hin].
  - eexists. split; [apply setup_out_dir_absent, Habs|].
    cbn [os_paths]. set_solver.
Qed.

(** C7.  The creation of the output directory is guarded by an existence
    check: when [out_dir] is absent the setup creates it; when it already
    exists the setup makes no creation call and raises nothing (the
    unguarded call would raise); and running the setup a second time
    leaves the file system as the first run left it. *)
Theorem setup_out_dir_guarded (s : os_state) :
  exists s', setup_out_dir s = Ok (tt, s') /\
    out_dir ∈ os_paths s' /\
    (out_dir ∉ os_paths s ->
       os_calls s' = os_calls s ++ [CallExists out_dir; CallMakedirs out_dir]) /\
    (out_dir ∈ os_paths s ->
       os_paths s' = os_paths s /\
       os_calls s' = os_calls s ++ [CallExists out_dir] /\
       os_makedirs out_dir s = Raise FileExistsError) /\
    exists s'', setup_out_dir s' = Ok (tt, s'') /\
       os_paths s'' = os_paths s' /\
       os_calls s'' = os_calls s' ++ [CallExists out_dir].
Proof.
  destruct (decide (out_dir ∈ os_paths s)) as [Hin|Habs].
  - eexists. split; [apply setup_out_dir_present, Hin|]. cbn [os_paths os_calls].
    split; [exact Hin|]. split; [intros Habs; contradiction|].
    split.
    + intros _. repeat split. unfold os_makedirs.
      rewrite bool_decide_eq_true_2 by exact Hin. reflexivity.
    + eexists. split; [apply setup_out_dir_present; exact Hin|].
      split; reflexivity.
  - eexists. split; [apply setup_out_dir_absent, Habs|]. cbn [os_paths os_calls].
    assert (Hnow : out_dir ∈ ({[out_dir]} ∪ list_to_set (parents out_dir)
                                ∪ os_paths s : gset string)) by set_solver.
    split; [exact Hnow|]. split; [intros _; reflexivity|].
    split; [intros Hin; contradiction|].
    eexists. split; [apply setup_out_dir_present; exact Hnow|].
    split; reflexivity.
Qed.

(** ** Plotting *)

Lemma plot_from_length (samples : list (list spec_float)) :
  forall i fig, plot_from i samples = Ok fig ->
    length fig = length samples /\
    map ax_cell fig
    = map (fun k => ((k / 4)%nat, (k mod 4)%nat)) (seq i (length samples)).
Proof.
  induction samples as [|s samples IH]; intros i fig H; cbn [plot_from] in H.
  - injection H as <-. split; reflexivity.
  - unfold rbind, gridspec_getitem, reshape in H.
    destruct (i <? 4 * 4)%nat; [|discriminate].
    destruct (length s =? 28 * 28)%nat; [|discriminate].
    destruct (plot_from (S i) samples) as [axs|] eqn:E; [|discriminate].
    injection H as <-. destruct (IH _ _ E) as [Hlen Hcells].
    cbn [length map seq ax_cell]. rewrite Hlen, Hcells. split; reflexivity.
Qed.

(** [plot] succeeds exactly on at most 16 samples of 784 elements each. *)
Lemma plot_from_ok_iff (samples : list (list spec_float)) :
  forall i,
    (exists fig, plot_from i samples = Ok fig) <->
    ((samples = [] \/ (i + length samples <= 16)%nat) /\
     Forall (fun s => length s = 784%nat) samples).
Proof.
  induction samples as [|s samples IH]; intros i; cbn [plot_from].
  - split; [intros _; split; [left; reflexivity | constructor] | eauto].
  - unfold rbind, gridspec_getitem, reshape.
    change (4 * 4)%nat with 16%nat. change (28 * 28)%nat with 784%nat.
    destruct (Nat.ltb_spec i 16) as [Hi|Hi].
    2:{ split; [intros [fig H]; discriminate|].
        intros [[Hnil|Hle] _]; [discriminate | simpl in Hle; lia]. }
    destruct (Nat.eqb_spec (length s) 784) as [Hs|Hs].
    2:{ split; [intros [fig H]; discriminate|].
        intros [_ Hall]. inversion Hall; subst. contradiction. }
    specialize (IH (S i)). split.
    + intros [fig H].
      destruct (plot_from (S i) samples) as [axs|] eqn:E; [|discriminate].
      destruct (proj1 IH (ex_intro _ axs eq_refl)) as [Hcase Hall].
      split; [|constructor; assumption].
      right. destruct Hcase as [->|Hle]; simpl in *; lia.
    + intros [[Hnil|Hle] Hall]; [discriminate|].
      inversion Hall; subst.
      destruct (proj2 IH) as [axs E].
      { split; [|assumption]. right. simpl in Hle. lia. }
      rewrite E. eauto.
Qed.

Lemma plot_ok_iff (samples : list (list spec_float)) :
  (exists fig, plot samples = Ok fig) <->
  (length samples <= 16)%nat /\ Forall (fun s => length s = 784%nat) samples.
Proof.
  unfold plot. rewrite plot_from_ok_iff. split.
  - intros [[->|Hle] Hall]; split; simpl in *; auto; lia.
  - intros [Hle Hall]. split; [right; simpl; lia | exact Hall].
Qed.

Lemma take_row_ok {A} (a : list (list A)) (i : Z) :
  0 <= i < shape0 a ->
  exists r, take_row a i = Ok r /\ a !! Z.to_nat i = Some r.
Proof.
  intros Hi. unfold take_row.
  destruct (Z.leb_spec (- shape0 a) i); [|lia].
  destruct (Z.ltb_spec i (shape0 a)); [|lia]. cbn [andb].
  destruct (Z.ltb_spec i 0); [lia|].
  destruct (lookup_lt_is_Some_2 a (Z.to_nat i)) as [r Hr].
  { unfold shape0 in *. lia. }
  rewrite Hr. eauto.
Qed.

Lemma take_rows_ok {A} (a : list (list A)) (idx : list Z) :
  Forall (fun i => 0 <= i < shape0 a) idx ->
  exists rows, take_rows a idx = Ok rows /\
    Forall2 (fun i r => a !! Z.to_nat i = Some r) idx rows.
Proof.
  induction 1 as [|i idx Hi _ (rows & E & Hrows)]; cbn [take_rows].
  - exists []. split; [reflexivity | constructor].
  - destruct (take_row_ok a i Hi) as (r & Er & Hr).
    exists (r :: rows). rewrite Er, E. split; [reflexivity|].
    constructor; assumption.
Qed.

Lemma take_rows_shape {A} (a : list (list A)) (idx : list Z) (m n : nat) :
  has_shape a m n ->
  Forall (fun i => 0 <= i < Z.of_nat m) idx ->
  exists rows, take_rows a idx = Ok rows /\
    has_shape rows (length idx) n /\
    Forall2 (fun i r => a !! Z.to_nat i = Some r) idx rows.
Proof.
  intros [Hm Hn] Hidx.
  destruct (take_rows_ok a idx) as (rows & E & Hrows).
  { unfold shape0. now rewrite Hm. }
  exists rows. split; [exact E|]. split; [|exact Hrows].
  split; [symmetry; eapply Forall2_length, Hrows|].
  clear E. induction Hrows as [|i r idx rows Hr _ IH]; constructor.
  - rewrite Forall_lookup in Hn. eapply Hn, Hr.
  - apply IH. now inversion Hidx.
Qed.

Lemma randint_spec (low : Z) (size : nat) (r : rng) :
  0 < low ->
  exists idx r', randint low size r = Ok (idx, r') /\
    length idx = size /\ Forall (fun i => 0 <= i < low) idx.
Proof.
  intros Hlow. unfold randint.
  destruct (Z.leb_spec low 0); [lia|].
  set (draw := fun _ : nat => bind next_word _).
  destruct (map_py_total draw (fun _ => True)) with (xs := seq 0 size) (s := r)
    as (idx & r' & E).
  { intros x s _. unfold draw, bind, next_word, ret. eauto. }
  { apply Forall_true. auto. }
  exists idx, r'. split; [exact E|].
  pose proof (map_py_Forall2 draw (fun _ i => 0 <= i < low)) as HF.
  specialize (HF) with (2 := E).
  assert (H2 : Forall2 (fun (_ : nat) i => 0 <= i < low) (seq 0 size) idx).
  { apply HF. intros x s y s' Hd. unfold draw, bind, next_word, ret in Hd.
    injection Hd as <- _. apply Z.mod_pos_bound. lia. }
  split.
  - apply Forall2_length in H2. rewrite length_seq in H2. auto.
  - clear -H2. induction H2; constructor; assumption.
Qed.

(** ** The training loop *)

Lemma bind_ok {S A B} (m : Py S A) (k : A -> Py S B) (s s' : S) (a : A) :
  m s = Ok (a, s') -> bind m k s = k a s'.
Proof. intros H. unfold bind. now rewrite H. Qed.

(** Run one [log] statement at the head of a sequence. *)
Ltac step_log :=
  rewrite (bind_ok (log _) _ _ _ _ eq_refl);
  cbv beta zeta; cbn [w_os w_rng w_tf w_trace].

Lemma figure_of_ok (samples : list (list spec_float)) (idx : list Z) :
  has_shape samples (Z.to_nat M) 784 -> idx_ok idx ->
  exists rows, take_rows samples idx = Ok rows /\
    has_shape rows 16 784 /\
    Forall2 (fun i r => samples !! Z.to_nat i = Some r) idx rows /\
    plot rows = Ok (figure_of samples idx) /\
    length (figure_of samples idx) = 16%nat.
Proof.
  intros Hs [Hlen Hidx].
  destruct (take_rows_shape samples idx (Z.to_nat M) 784 Hs) as (rows & E & Hsh & Hrows).
  { eapply Forall_impl; [exact Hidx|]. intros i Hi. cbn in *.
    change (Z.of_nat (Z.to_nat M)) with M. exact Hi. }
  rewrite Hlen in Hsh.
  destruct (proj2 (plot_ok_iff rows)) as [fig Hfig].
  { destruct Hsh as [Hl Hr]. split; [lia | exact Hr]. }
  exists rows. unfold figure_of. rewrite E. cbn [rbind]. rewrite Hfig.
  repeat split; try assumption; try apply Hsh.
  unfold plot in Hfig. apply plot_from_length in Hfig.
  destruct Hfig as [-> _]. apply Hsh.
Qed.

Section Loop.
Variable model_output : tf_state -> list (list spec_float).
Hypothesis Hout : forall st, has_shape (model_output st) (Z.to_nat M) 784.

Lemma render_spec (idx : list Z) (i : Z) (w : world) :
  idx_ok idx ->
  render model_output idx i w
  = Ok (i + 1,
        {| w_os := w_os w; w_rng := w_rng w;
           w_tf := {| tf_updates := tf_updates (w_tf w);
                      tf_runs := S (tf_runs (w_tf w)) |};
           w_trace := w_trace w
             ++ [EvSessRun;
                 EvSavefig (figure_path i)
                           (figure_of (model_output (w_tf w)) idx);
                 EvClose] |}).
Proof.
  intros Hidx.
  destruct (figure_of_ok (model_output (w_tf w)) idx (Hout _) Hidx)
    as (rows & E & _ & _ & Hfig & _).
  unfold render, bind, sess_run_x, lift, log, ret.
  rewrite E, Hfig. cbn [w_os w_rng w_tf w_trace].
  rewrite <- !app_assoc. reflexivity.
Qed.

Lemma gen_ok_advance (g : gen) : gen_ok g -> gen_ok (advance g).
Proof.
  intros (Hpx & Hrow & Hbs & Hfit & Hstart).
  unfold gen_ok, advance. cbn [gen_array gen_batch_size gen_start].
  repeat split; try assumption; rewrite Hbs;
    apply (select_batch_start (gen_array g) M); unfold M in *; try lia;
    assumption.
Qed.

Lemma next_feeds (g : gen) (r : rng) :
  gen_ok g ->
  exists b r', next g r = Ok (b, advance g, r') /\ feed_ok b = true.
Proof.
  intros (Hpx & Hrow & Hbs & Hfit & Hstart).
  destruct (next_spec g r Hpx) as (b & r' & E & Hb & _).
  exists b, r'. split; [exact E|].
  unfold feed_ok. apply andb_true_intro. split.
  - apply Nat.eqb_eq. apply Forall2_length in Hb. rewrite <- Hb.
    unfold normalize. rewrite length_map. unfold selected. rewrite Hbs.
    apply select_batch_length; unfold M in *; try lia; assumption.
  - apply forallb_forall. intros row Hin. apply Nat.eqb_eq.
    apply list_elem_of_In, list_elem_of_lookup in Hin. destruct Hin as [j Hj].
    destruct (Forall2_lookup_r _ _ _ _ _ Hb Hj) as (prow & Hp & Hlen).
    apply Forall2_length in Hlen. rewrite <- Hlen.
    unfold normalize in Hp. rewrite list_lookup_fmap in Hp.
    destruct (selected g !! j) as [raw|] eqn:Hraw; [|discriminate].
    injection Hp as <-. rewrite length_map.
    pose proof (select_batch_Forall _ (gen_array g) (gen_batch_size g)
                  (gen_start g) Hrow) as Hsel.
    rewrite Forall_lookup in Hsel. apply (Hsel j raw Hraw).
Qed.

Lemma next_batch_spec (g : gen) (w : world) :
  gen_ok g ->
  exists b r',
    next_batch g w
    = Ok ((b, advance g),
          {| w_os := w_os w; w_rng := r'; w_tf := w_tf w;
             w_trace := w_trace w ++ [EvNextBatch] |}) /\
    feed_ok b = true.
Proof.
  intros Hgen.
  destruct (next_feeds g (w_rng w) Hgen) as (b & r' & E & Hfeed).
  exists b, r'. split; [|exact Hfeed].
  unfold next_batch, with_rng, bind, log, ret. rewrite E. reflexivity.
Qed.

Lemma inference_update_spec (b : array) (w : world) :
  feed_ok b = true ->
  inference_update b w
  = Ok (tt, {| w_os := w_os w; w_rng := w_rng w;
               w_tf := {| tf_updates := S (tf_updates (w_tf w));
                          tf_runs := tf_runs (w_tf w) |};
               w_trace := w_trace w ++ [EvUpdate] |}).
Proof. intros H. unfold inference_update. now rewrite H. Qed.

Lemma loop_body_spec (inf : inference) (idx : list Z) (t : Z)
    (v : loop_vars) (w : world) :
  n_print inf <> 0 -> idx_ok idx -> gen_ok (lv_gen v) ->
  exists r',
    loop_body model_output inf idx t v w
    = Ok ({| lv_i := step_i (n_print inf) t (lv_i v);
             lv_gen := advance (lv_gen v) |},
          {| w_os := w_os w; w_rng := r';
             w_tf := step_tf (n_print inf) t (w_tf w);
             w_trace := w_trace w
               ++ iteration_events model_output (n_print inf) idx t
                                   (lv_i v) (w_tf w) |}).
Proof.
  intros Hnp Hidx Hgen. unfold loop_body.
  rewrite (bind_ok _ _ w w (t mod n_print inf)).
  2:{ unfold lift, py_mod. destruct (Z.eqb_spec (n_print inf) 0);
        [contradiction | reflexivity]. }
  unfold step_i, step_tf, iteration_events, renders.
  destruct (t mod n_print inf =? 0).
  - erewrite bind_ok by (apply render_spec; exact Hidx).
    cbv beta.
    match goal with |- context [bind (next_batch _) _ ?w1] =>
      destruct (next_batch_spec (lv_gen v) w1 Hgen) as (b & r' & E & Hfeed)
    end.
    exists r'. rewrite (bind_ok _ _ _ _ _ E).
    erewrite bind_ok by (apply inference_update_spec; exact Hfeed).
    unfold bind, log, ret. cbn [w_rng w_os w_tf w_trace tf_updates tf_runs].
    rewrite <- !app_assoc. reflexivity.
  - rewrite (bind_ok _ _ w w (lv_i v)) by reflexivity.
    destruct (next_batch_spec (lv_gen v) w Hgen) as (b & r' & E & Hfeed).
    exists r'. rewrite (bind_ok _ _ _ _ _ E).
    erewrite bind_ok by (apply inference_update_spec; exact Hfeed).
    unfold bind, log, ret. cbn [w_rng w_os w_tf w_trace tf_updates tf_runs].
    rewrite <- !app_assoc. reflexivity.
Qed.

Lemma for_range_spec (inf : inference) (idx : list Z) (ts : list Z) :
  n_print inf <> 0 -> idx_ok idx ->
  forall (v : loop_vars) (w : world),
    gen_ok (lv_gen v) ->
    exists r',
      for_range ts (loop_body model_output inf idx) v w
      = Ok ({| lv_i := final_i (n_print inf) ts (lv_i v);
               lv_gen := advance_n (length ts) (lv_gen v) |},
            {| w_os := w_os w; w_rng := r';
               w_tf := final_tf (n_print inf) ts (w_tf w);
               w_trace := w_trace w
                 ++ loop_events model_output (n_print inf) idx ts
                                (lv_i v) (w_tf w) |}).
Proof.
  intros Hnp Hidx. induction ts as [|t ts IH]; intros v w Hgen.
  - exists (w_rng w). cbn. unfold ret. rewrite app_nil_r.
    destruct v, w. reflexivity.
  - destruct (loop_body_spec inf idx t v w Hnp Hidx Hgen) as (r1 & E1).
    cbn [for_range]. rewrite (bind_ok _ _ _ _ _ E1).
    match goal with |- context [for_range ts _ ?v1 ?w1] =>
      destruct (IH v1 w1) as (r2 & E2)
    end.
    { cbn [lv_gen]. apply gen_ok_advance, Hgen. }
    exists r2. rewrite E2.
    cbn [lv_i lv_gen w_os w_rng w_tf w_trace length advance_n
         final_i final_tf loop_events].
    rewrite <- app_assoc. reflexivity.
Qed.

Lemma training_loop_spec (inf : inference) (g : gen) (w : world) :
  n_print inf <> 0 -> gen_ok g ->
  exists idx r1 r2,
    randint M 16 (w_rng w) = Ok (idx, r1) /\ idx_ok idx /\
    training_loop model_output inf g w
    = Ok ({| lv_i := final_i (n_print inf) (range (n_iter inf)) 0;
             lv_gen := advance_n (length (range (n_iter inf))) g |},
          {| w_os := w_os w; w_rng := r2;
             w_tf := final_tf (n_print inf) (range (n_iter inf)) (w_tf w);
             w_trace := w_trace w
               ++ [EvGetSession; EvInitVariables; EvRandint idx]
               ++ loop_events model_output (n_print inf) idx
                              (range (n_iter inf)) 0 (w_tf w) |}).
Proof.
  intros Hnp Hgen.
  destruct (randint_spec M 16 (w_rng w)) as (idx & r1 & Eidx & Hlen & Hrange);
    [reflexivity|].
  assert (Hidx : idx_ok idx) by (split; assumption).
  exists idx, r1.
  unfold training_loop. generalize (range (n_iter inf)). intros ts.
  destruct (for_range_spec inf idx ts Hnp Hidx
              {| lv_i := 0; lv_gen := g |}
              {| w_os := w_os w; w_rng := r1; w_tf := w_tf w;
                 w_trace := ((w_trace w ++ [EvGetSession])
                               ++ [EvInitVariables]) ++ [EvRandint idx] |}
              Hgen) as (r2 & E2).
  cbn [lv_i lv_gen w_os w_rng w_tf w_trace] in E2.
  exists r2. split; [exact Eidx|]. split; [exact Hidx|].
  do 2 step_log.
  erewrite (bind_ok (with_rng _))
    by (unfold with_rng; cbn [w_rng]; rewrite Eidx; reflexivity).
  step_log.
  rewrite E2. rewrite <- !app_assoc. reflexivity.
Qed.
End Loop.

(** The notebook, run from a fresh state on well-formed data: it returns,
    and its trace is the prelude, the draw of [idx] and the loop's events. *)
Lemma notebook_spec (model_output : tf_state -> list (list spec_float))
    (x_train : array) (paths : gset string) (r : rng) :
  (forall st, has_shape (model_output st) (Z.to_nat M) 784) ->
  Forall (Forall pixel) x_train ->
  Forall (fun row => length row = 784%nat) x_train ->
  M <= shape0 x_train ->
  exists idx r1 v w,
    randint M 16 r = Ok (idx, r1) /\ idx_ok idx /\
    notebook model_output x_train (initial_world paths r) = Ok (v, w) /\
    lv_i v = final_i 1000 (range 15000) 0 /\
    lv_gen v = advance_n (length (range 15000)) (generator x_train M) /\
    w_tf w = final_tf 1000 (range 15000) (mk_tf 0 0) /\
    out_dir ∈ os_paths (w_os w) /\
    w_trace w = prelude_events ++ EvRandint idx
                  :: loop_events model_output 1000 idx (range 15000) 0
                                 (mk_tf 0 0).
Proof.
  intros Hout Hpx Hrow Hfit.
  destruct (setup_out_dir_returns {| os_paths := paths; os_calls := [] |})
    as (os1 & Eos & Hdir).
  unfold notebook, prelude_events, initial_world.
  remember 15000 as ni eqn:Hni. remember 1000 as np eqn:Hnp.
  assert (Hnp0 : np <> 0) by (subst np; discriminate).
  clear Hni Hnp.
  assert (Hgen : gen_ok (generator x_train M)).
  { unfold gen_ok, generator.
    cbn [gen_array gen_batch_size gen_start]. unfold shape0 in *.
    repeat split; try assumption; lia. }
  do 2 step_log.
  erewrite (bind_ok (with_os _))
    by (unfold with_os; cbn [w_os]; rewrite Eos; reflexivity).
  cbn [w_os w_rng w_tf w_trace].
  do 9 step_log.
  rewrite (bind_ok (initialize _ _) _ _ _ _ eq_refl).
  cbn [w_os w_rng w_tf w_trace app].
  match goal with |- context [training_loop _ ?inf ?g ?w1] =>
    destruct (training_loop_spec model_output Hout inf g w1 Hnp0 Hgen)
      as (idx & r1 & r2 & Eidx & Hidx & E)
  end.
  cbn [w_os w_rng w_tf w_trace n_iter n_print] in Eidx, E.
  eexists idx, r1, _, _. split; [exact Eidx|]. split; [exact Hidx|].
  split; [exact E|].
  cbn [lv_i lv_gen w_os w_rng w_tf w_trace].
  repeat split; try reflexivity. exact Hdir.
Qed.

(** ** What the loop's trace contains *)

Lemma count_app (f : event -> bool) (a b : list event) :
  count f (a ++ b) = (count f a + count f b)%nat.
Proof. unfold count. now rewrite List.filter_app, length_app. Qed.

Lemma iteration_events_count (f : event -> bool) mo np idx t i st :
  (forall p fig, f (EvSavefig p fig) = false) ->
  f EvSessRun = false -> f EvClose = false -> f EvPrintProgress = false ->
  count f (iteration_events mo np idx t i st)
  = (count f [EvNextBatch] + count f [EvUpdate])%nat.
Proof.
  intros Hs Hr Hc Hp. unfold iteration_events, count.
  destruct (renders np t); cbn [List.filter app];
    rewrite ?Hs, ?Hr, ?Hc, ?Hp; destruct (f EvNextBatch), (f EvUpdate);
    reflexivity.
Qed.

Lemma loop_events_count (f : event -> bool) mo np idx ts :
  (forall p fig, f (EvSavefig p fig) = false) ->
  f EvSessRun = false -> f EvClose = false -> f EvPrintProgress = false ->
  forall i st,
    count f (loop_events mo np idx ts i st)
    = (length ts * (count f [EvNextBatch] + count f [EvUpdate]))%nat.
Proof.
  intros Hs Hr Hc Hp. induction ts as [|t ts IH]; intros i st.
  - reflexivity.
  - cbn [loop_events length]. rewrite count_app, IH.
    rewrite iteration_events_count by assumption. lia.
Qed.

(** Between two parameter updates exactly one batch is drawn, and the
    other way round. *)
Lemma loop_events_alternate mo np idx ts :
  forall i st,
    List.filter (fun e => is_next_batch e || is_update e)
                (loop_events mo np idx ts i st)
    = concat (replicate (length ts) [EvNextBatch; EvUpdate]).
Proof.
  induction ts as [|t ts IH]; intros i st; [reflexivity|].
  cbn [loop_events length replicate concat].
  rewrite List.filter_app, IH. f_equal.
  unfold iteration_events. destruct (renders np t); reflexivity.
Qed.

Lemma final_tf_updates (np : Z) (ts : list Z) :
  forall st, tf_updates (final_tf np ts st) = (tf_updates st + length ts)%nat.
Proof.
  induction ts as [|t ts IH]; intros st; cbn [final_tf length]; [lia|].
  rewrite IH. cbn [step_tf tf_updates]. lia.
Qed.

Lemma range_length (n : Z) : length (range n) = Z.to_nat n.
Proof. unfold range. now rewrite length_map, length_seq. Qed.

(** *** The loop, one printing period at a time *)

Lemma loop_events_app mo np idx (ts1 ts2 : list Z) :
  forall i st,
    loop_events mo np idx (ts1 ++ ts2) i st
    = loop_events mo np idx ts1 i st
        ++ loop_events mo np idx ts2 (final_i np ts1 i) (final_tf np ts1 st).
Proof.
  induction ts1 as [|t ts1 IH]; intros i st; [reflexivity|].
  cbn [app loop_events final_i final_tf]. rewrite IH, <- app_assoc.
  reflexivity.
Qed.

Lemma final_i_app np (ts1 ts2 : list Z) :
  forall i, final_i np (ts1 ++ ts2) i = final_i np ts2 (final_i np ts1 i).
Proof.
  induction ts1 as [|t ts1 IH]; intros i; [reflexivity|].
  cbn [app final_i]. apply IH.
Qed.

Lemma final_tf_app np (ts1 ts2 : list Z) :
  forall st, final_tf np (ts1 ++ ts2) st = final_tf np ts2 (final_tf np ts1 st).
Proof.
  induction ts1 as [|t ts1 IH]; intros st; [reflexivity|].
  cbn [app final_tf]. apply IH.
Qed.

(** A stretch of iterations none of which renders. *)
Lemma loop_events_quiet mo np idx (ts : list Z) :
  Forall (fun t => renders np t = false) ts ->
  forall i st,
    loop_events mo np idx ts i st
    = concat (replicate (length ts) [EvNextBatch; EvUpdate; EvPrintProgress])
    /\ final_i np ts i = i
    /\ final_tf np ts st
       = {| tf_updates := tf_updates st + length ts; tf_runs := tf_runs st |}.
Proof.
  induction 1 as [|t ts Ht _ IH]; intros i st.
  - cbn. destruct st as [u q]. cbn. rewrite Nat.add_0_r. auto.
  - cbn [loop_events final_i final_tf length replicate concat].
    unfold iteration_events, step_i, step_tf. rewrite Ht.
    destruct (IH i {| tf_updates := S (tf_updates st);
                      tf_runs := tf_runs st |}) as (-> & -> & ->).
    cbn [tf_updates tf_runs]. repeat split.
    f_equal. lia.
Qed.

Lemma renders_multiple (n k : nat) :
  renders (Z.of_nat (S n)) (Z.of_nat (k * S n)) = true.
Proof.
  unfold renders. rewrite Nat2Z.inj_mul, Z.mod_mul by lia. reflexivity.
Qed.

Lemma renders_between (n k j : nat) :
  (0 < j < S n)%nat ->
  renders (Z.of_nat (S n)) (Z.of_nat (k * S n + j)) = false.
Proof.
  intros Hj. unfold renders.
  rewrite Nat2Z.inj_add, Nat2Z.inj_mul, Z.add_comm, Z.mod_add by lia.
  rewrite Z.mod_small by lia. apply Z.eqb_neq. lia.
Qed.

Lemma quiet_stretch (n k : nat) :
  Forall (fun t => renders (Z.of_nat (S n)) t = false)
         (map Z.of_nat (seq (k * S n + 1) n)).
Proof.
  apply Forall_fmap, Forall_seq. intros j Hj. cbn.
  replace j with (k * S n + (j - k * S n))%nat by lia.
  apply renders_between. lia.
Qed.

(** One period of [S n] iterations starting at a multiple of [S n]. *)
Lemma loop_events_period mo idx (n k : nat) (i : Z) (st : tf_state) :
  let ts := map Z.of_nat (seq (k * S n) (S n)) in
  loop_events mo (Z.of_nat (S n)) idx ts i st
  = [EvSessRun; EvSavefig (figure_path i) (figure_of (mo st) idx); EvClose]
      ++ concat (replicate (S n) [EvNextBatch; EvUpdate; EvPrintProgress])
  /\ final_i (Z.of_nat (S n)) ts i = i + 1
  /\ final_tf (Z.of_nat (S n)) ts st
     = {| tf_updates := tf_updates st + S n; tf_runs := S (tf_runs st) |}.
Proof.
  cbn [seq map loop_events final_i final_tf].
  unfold iteration_events at 1, step_i, step_tf.
  rewrite renders_multiple.
  replace (S (k * S n)) with (k * S n + 1)%nat by lia.
  destruct (loop_events_quiet mo (Z.of_nat (S n)) idx _ (quiet_stretch n k)
              (i + 1)
              {| tf_updates := S (tf_updates st); tf_runs := S (tf_runs st) |})
    as (-> & -> & ->).
  rewrite length_map, length_seq. cbn [tf_updates tf_runs].
  repeat split. f_equal. lia.
Qed.

Lemma loop_events_blocks mo idx (n : nat) (blocks : nat) :
  forall (k : nat) (i : Z) (st : tf_state),
    let ts := map Z.of_nat (seq (k * S n) (blocks * S n)) in
    loop_events mo (Z.of_nat (S n)) idx ts i st
    = block_events mo idx (S n) blocks i st
    /\ final_i (Z.of_nat (S n)) ts i = i + Z.of_nat blocks.
Proof.
  induction blocks as [|blocks IH]; intros k i st.
  - cbn. split; [reflexivity | lia].
  - cbv zeta. change (S blocks * S n)%nat with (S n + blocks * S n)%nat.
    rewrite seq_app, map_app, loop_events_app, final_i_app.
    destruct (loop_events_period mo idx n k i st) as (-> & -> & ->).
    replace (k * S n + S n)%nat with (S k * S n)%nat by lia.
    destruct (IH (S k) (i + 1)
                 {| tf_updates := tf_updates st + S n;
                    tf_runs := S (tf_runs st) |}) as (-> & ->).
    split; [|lia].
    cbn [block_events]. rewrite <- !app_assoc. reflexivity.
Qed.

(** The notebook's loop: 15 periods of 1000 iterations. *)
Lemma notebook_loop_blocks mo idx :
  loop_events mo 1000 idx (range 15000) 0 (mk_tf 0 0)
  = block_events mo idx 1000 15 0 (mk_tf 0 0)
  /\ final_i 1000 (range 15000) 0 = 15.
Proof.
  pose proof (loop_events_blocks mo idx 999 15 0 0 (mk_tf 0 0)) as H.
  cbv zeta in H. exact H.
Qed.

(** The figures of the run: the [k]-th is written to [k], zero-padded to
    three digits, when exactly [1000 * k] updates have been applied. *)
Lemma loop_saves mo idx :
  saves (loop_events mo 1000 idx (range 15000) 0 (mk_tf 0 0))
  = map (fun k => ((1000 * k)%nat, figure_path (Z.of_nat k))) (seq 0 15).
Proof.
  rewrite (proj1 (notebook_loop_blocks mo idx)). vm_compute. reflexivity.
Qed.

Lemma loop_saved_figures mo idx :
  saved_figures (loop_events mo 1000 idx (range 15000) 0 (mk_tf 0 0))
  = map (fun k => figure_of (mo (mk_tf (1000 * k) k)) idx) (seq 0 15).
Proof.
  rewrite (proj1 (notebook_loop_blocks mo idx)). reflexivity.
Qed.

Lemma saves_prelude (idx : list Z) (tr : list event) :
  saves (prelude_events ++ EvRandint idx :: tr) = saves tr.
Proof. reflexivity. Qed.

Lemma saved_figures_prelude (idx : list Z) (tr : list event) :
  saved_figures (prelude_events ++ EvRandint idx :: tr) = saved_figures tr.
Proof. reflexivity. Qed.

Lemma alternate_prelude (idx : list Z) (tr : list event) :
  List.filter (fun e => is_next_batch e || is_update e)
              (prelude_events ++ EvRandint idx :: tr)
  = List.filter (fun e => is_next_batch e || is_update e) tr.
Proof. reflexivity. Qed.

Lemma count_prelude (f : event -> bool) (idx : list Z) (tr : list event) :
  count f (prelude_events ++ EvRandint idx :: tr)
  = (count f (prelude_events ++ [EvRandint idx]) + count f tr)%nat.
Proof.
  rewrite <- count_app, <- app_assoc. reflexivity.
Qed.

Lemma sample_output_shape (st : tf_state) :
  has_shape (sample_output st) (Z.to_nat M) 784.
Proof.
  split; [reflexivity|]. apply Forall_replicate, length_replicate.
Qed.

Lemma sample_data_pixels : Forall (Forall pixel) sample_data.
Proof. apply Forall_replicate, Forall_replicate. unfold pixel. lia. Qed.

Lemma sample_data_rows : Forall (fun row => length row = 784%nat) sample_data.
Proof. apply Forall_replicate, length_replicate. Qed.

Lemma sample_data_fits : M <= shape0 sample_data.
Proof. unfold shape0, sample_data. rewrite length_replicate. reflexivity. Qed.

Lemma plot_from_images (samples : list (list spec_float)) :
  forall i fig, plot_from i samples = Ok fig ->
    Forall2 (fun s ax => ax_image ax = rows_of 28 28 s) samples fig.
Proof.
  induction samples as [|s samples IH]; intros i fig H; cbn [plot_from] in H.
  - injection H as <-. constructor.
  - unfold rbind, gridspec_getitem, reshape in H.
    destruct (i <? 4 * 4)%nat; [|discriminate].
    destruct (length s =? 28 * 28)%nat; [|discriminate].
    destruct (plot_from (S i) samples) as [axs|] eqn:E; [|discriminate].
    injection H as <-. constructor; [reflexivity | eapply IH, E].
Qed.

(** Every subplot of [figure_of samples idx] shows the row of [samples]
    at the corresponding position of [idx]. *)
Lemma figure_of_rows (samples : list (list spec_float)) (idx : list Z) :
  has_shape samples (Z.to_nat M) 784 -> idx_ok idx ->
  Forall2 (fun i ax => exists row,
             samples !! Z.to_nat i = Some row /\
             ax_image ax = rows_of 28 28 row)
          idx (figure_of samples idx).
Proof.
  intros Hs Hidx.
  destruct (figure_of_ok samples idx Hs Hidx) as (rows & _ & _ & Hrows & Hfig & _).
  unfold plot in Hfig. apply plot_from_images in Hfig.
  revert Hfig. generalize (figure_of samples idx). clear -Hrows.
  induction Hrows as [|i r idx rows Hr _ IH]; intros fig Hfig;
    inversion Hfig; subst; constructor; eauto.
Qed.

(** C10.  [plot] lays its samples into a 4 x 4 grid and reshapes each to
    28 x 28, so it succeeds exactly on at most 16 samples of 784 elements
    each.  The loop passes the 16 rows of the [M, 784] model output chosen
    by [idx], so the row selection, the grid indexing and the reshape all
    succeed whenever the loop renders. *)
Theorem plot_preconditions_met
    (model_output : tf_state -> list (list spec_float))
    (r : rng) (i : Z) (w : world) :
  (forall st, has_shape (model_output st) (Z.to_nat M) 784) ->
  (forall samples,
     (exists fig, plot samples = Ok fig) <->
     (length samples <= 16)%nat /\
     Forall (fun s => length s = 784%nat) samples) /\
  exists idx r',
    randint M 16 r = Ok (idx, r') /\
    exists samples fig w',
      take_rows (model_output (w_tf w)) idx = Ok samples /\
      has_shape samples 16 784 /\
      plot samples = Ok fig /\
      length fig = 16%nat /\
      render model_output idx i w = Ok (i + 1, w').
Proof.
  intros Hout. split; [apply plot_ok_iff|].
  destruct (randint_spec M 16 r) as (idx & r' & E & Hlen & Hrange);
    [reflexivity|].
  assert (Hidx : idx_ok idx) by (split; assumption).
  exists idx, r'. split; [exact E|].
  destruct (figure_of_ok (model_output (w_tf w)) idx (Hout _) Hidx)
    as (rows & Erows & Hshape & _ & Hfig & Hlenfig).
  eexists rows, _, _. split; [exact Erows|]. split; [exact Hshape|].
  split; [exact Hfig|]. split; [exact Hlenfig|].
  apply render_spec; assumption.
Qed.

Lemma plot_preconditions_met_witness :
  (forall st, has_shape (sample_output st) (Z.to_nat M) 784) /\
  ((forall samples,
      (exists fig, plot samples = Ok fig) <->
      (length samples <= 16)%nat /\
      Forall (fun s => length s = 784%nat) samples) /\
   exists idx r',
     randint M 16 sample_rng = Ok (idx, r') /\
     exists samples fig w',
       take_rows (sample_output (w_tf (initial_world ∅ sample_rng))) idx
         = Ok samples /\
       has_shape samples 16 784 /\
       plot samples = Ok fig /\
       length fig = 16%nat /\
       render sample_output idx 0 (initial_world ∅ sample_rng) = Ok (0 + 1, w')).
Proof.
  split; [exact sample_output_shape|].
  apply (plot_preconditions_met sample_output sample_rng 0
           (initial_world ∅ sample_rng) sample_output_shape).
Defined.

(** C4.  On well-formed data the training loop runs its 15000 iterations
    to the end; every iteration draws exactly one batch from the generator
    and makes exactly one [inference.update] call; a figure is saved at
    the iterations t with t mod 1000 = 0 and at no other, that is when
    0, 1000, ..., 14000 updates have been applied: 15 figures, written to
    000.png through 014.png in the output directory. *)
Theorem training_run_counts_and_figures
    (model_output : tf_state -> list (list spec_float))
    (x_train : array) (paths : gset string) (r : rng) :
  (forall st, has_shape (model_output st) (Z.to_nat M) 784) ->
  Forall (Forall pixel) x_train ->
  Forall (fun row => length row = 784%nat) x_train ->
  M <= shape0 x_train ->
  exists v w,
    notebook model_output x_train (initial_world paths r) = Ok (v, w) /\
    count is_update (w_trace w) = Z.to_nat 15000 /\
    count is_next_batch (w_trace w) = Z.to_nat 15000 /\
    List.filter (fun e => is_next_batch e || is_update e) (w_trace w)
      = concat (replicate (Z.to_nat 15000) [EvNextBatch; EvUpdate]) /\
    lv_gen v = advance_n (Z.to_nat 15000) (generator x_train M) /\
    tf_updates (w_tf w) = Z.to_nat 15000 /\
    lv_i v = 15 /\
    saves (w_trace w)
    = [(0, "/tmp/out/000.png"); (1000, "/tmp/out/001.png");
       (2000, "/tmp/out/002.png"); (3000, "/tmp/out/003.png");
       (4000, "/tmp/out/004.png"); (5000, "/tmp/out/005.png");
       (6000, "/tmp/out/006.png"); (7000, "/tmp/out/007.png");
       (8000, "/tmp/out/008.png"); (9000, "/tmp/out/009.png");
       (10000, "/tmp/out/010.png"); (11000, "/tmp/out/011.png");
       (12000, "/tmp/out/012.png"); (13000, "/tmp/out/013.png");
       (14000, "/tmp/out/014.png")]%nat.
Proof.
  intros Hout Hpx Hrow Hfit.
  destruct (notebook_spec model_output x_train paths r Hout Hpx Hrow Hfit)
    as (idx & r1 & v & w & _ & _ & E & Hi & Hg & Htf & _ & Htr).
  exists v, w. split; [exact E|]. rewrite Htr.
  split; [|split; [|split; [|split; [|split; [|split]]]]].
  - rewrite count_prelude, loop_events_count, range_length by reflexivity.
    change (count is_update (prelude_events ++ [EvRandint idx])) with 0%nat.
    change (count is_update [EvNextBatch]) with 0%nat.
    change (count is_update [EvUpdate]) with 1%nat. lia.
  - rewrite count_prelude, loop_events_count, range_length by reflexivity.
    change (count is_next_batch (prelude_events ++ [EvRandint idx])) with 0%nat.
    change (count is_next_batch [EvNextBatch]) with 1%nat.
    change (count is_next_batch [EvUpdate]) with 0%nat. lia.
  - rewrite alternate_prelude, loop_events_alternate, range_length.
    reflexivity.
  - rewrite Hg, range_length. reflexivity.
  - rewrite Htf, final_tf_updates, range_length. reflexivity.
  - rewrite Hi. apply (notebook_loop_blocks model_output idx).
  - rewrite saves_prelude, loop_saves. vm_compute. reflexivity.
Qed.

Lemma training_run_counts_and_figures_witness :
  (forall st, has_shape (sample_output st) (Z.to_nat M) 784) /\
  Forall (Forall pixel) sample_data /\
  Forall (fun row => length row = 784%nat) sample_data /\
  M <= shape0 sample_data /\
  exists v w,
    notebook sample_output sample_data (initial_world ∅ sample_rng)
      = Ok (v, w) /\
    count is_update (w_trace w) = Z.to_nat 15000 /\
    count is_next_batch (w_trace w) = Z.to_nat 15000 /\
    List.filter (fun e => is_next_batch e || is_update e) (w_trace w)
      = concat (replicate (Z.to_nat 15000) [EvNextBatch; EvUpdate]) /\
    lv_gen v = advance_n (Z.to_nat 15000) (generator sample_data M) /\
    tf_updates (w_tf w) = Z.to_nat 15000 /\
    lv_i v = 15 /\
    saves (w_trace w)
    = [(0, "/tmp/out/000.png"); (1000, "/tmp/out/001.png");
       (2000, "/tmp/out/002.png"); (3000, "/tmp/out/003.png");
       (4000, "/tmp/out/004.png"); (5000, "/tmp/out/005.png");
       (6000, "/tmp/out/006.png"); (7000, "/tmp/out/007.png");
       (8000, "/tmp/out/008.png"); (9000, "/tmp/out/009.png");
       (10000, "/tmp/out/010.png"); (11000, "/tmp/out/011.png");
       (12000, "/tmp/out/012.png"); (13000, "/tmp/out/013.png");
       (14000, "/tmp/out/014.png")]%nat.
Proof.
  split; [exact sample_output_shape|].
  split; [exact sample_data_pixels|].
  split; [exact sample_data_rows|].
  split; [exact sample_data_fits|].
  apply (training_run_counts_and_figures sample_output sample_data ∅
           sample_rng sample_output_shape sample_data_pixels
           sample_data_rows sample_data_fits).
Defined.

(** ** The order of the steps *)

Lemma loop_first_events mo idx :
  first_index is_savefig (loop_events mo 1000 idx (range 15000) 0 (mk_tf 0 0))
    = Some 1%nat /\
  first_index is_update (loop_events mo 1000 idx (range 15000) 0 (mk_tf 0 0))
    = Some 4%nat.
Proof.
  rewrite (proj1 (notebook_loop_blocks mo idx)).
  split; vm_compute; reflexivity.
Qed.

Lemma index_from_shift (f : event -> bool) (tr : list event) :
  forall n k, index_from n f tr = Some k ->
    index_from (S n) f tr = Some (S k).
Proof.
  induction tr as [|e tr IH]; intros n k H; cbn [index_from] in *.
  - discriminate.
  - destruct (f e); [now injection H as <- | now apply IH].
Qed.

Lemma first_index_skip (f : event -> bool) (pre tr : list event) (k : nat) :
  List.forallb (fun e => negb (f e)) pre = true ->
  first_index f tr = Some k ->
  first_index f (pre ++ tr) = Some (length pre + k)%nat.
Proof.
  unfold first_index. induction pre as [|e pre IH]; intros Hpre Htr.
  - exact Htr.
  - cbn [List.forallb] in Hpre. apply andb_prop in Hpre as [He Hpre].
    cbn [app index_from length]. destruct (f e); [discriminate|].
    apply (index_from_shift f (pre ++ tr) 0), IH; assumption.
Qed.

Lemma first_index_prefix (f : event -> bool) (pre tr : list event) (k : nat) :
  first_index f pre = Some k -> first_index f (pre ++ tr) = Some k.
Proof.
  unfold first_index. generalize 0%nat.
  induction pre as [|e pre IH]; intros n H; cbn [index_from app] in *.
  - discriminate.
  - destruct (f e); [exact H | now apply IH].
Qed.

Lemma prelude_split (idx : list Z) (tr : list event) :
  prelude_events ++ EvRandint idx :: tr
  = (prelude_events ++ [EvRandint idx]) ++ tr.
Proof. now rewrite <- app_assoc. Qed.

(** C8, as stated, fails: on a run of the notebook the first figure is
    saved (event 16 of the trace) before the first parameter update (event
    19), and the generator function is defined (event 2) before the data is
    loaded (event 3). *)
Lemma first_figure_precedes_first_update :
  exists v w,
    notebook sample_output sample_data (initial_world ∅ sample_rng)
      = Ok (v, w) /\
    first_index is_savefig (w_trace w) = Some 16%nat /\
    first_index is_update (w_trace w) = Some 19%nat /\
    first_index (is_define "generator") (w_trace w) = Some 2%nat /\
    first_index is_load_data (w_trace w) = Some 3%nat.
Proof.
  destruct (notebook_spec sample_output sample_data ∅ sample_rng
              sample_output_shape sample_data_pixels sample_data_rows
              sample_data_fits)
    as (idx & r1 & v & w & _ & _ & E & _ & _ & _ & _ & Htr).
  exists v, w. split; [exact E|]. rewrite Htr.
  destruct (loop_first_events sample_output idx) as [Hs Hu].
  rewrite prelude_split.
  split; [|split; [|split]].
  - rewrite (first_index_skip is_savefig (prelude_events ++ [EvRandint idx])
               _ 1 eq_refl Hs). reflexivity.
  - rewrite (first_index_skip is_update (prelude_events ++ [EvRandint idx])
               _ 4 eq_refl Hu). reflexivity.
  - apply first_index_prefix. reflexivity.
  - apply first_index_prefix. reflexivity.
Qed.

(** C8, amended.  The notebook runs as one linear sequence: the plot
    helper and the generator function are defined, then the data is loaded
    and the generator object created, then the two networks are defined,
    then the inference object is constructed and initialised, then the
    indices are drawn and the loop runs.  Every figure is saved inside the
    loop, hence after the inference object is constructed; the first
    figure is saved in the first iteration before the loop's first
    parameter update, and the k-th figure (from 0) is saved when exactly
    1000 * k updates have been applied. *)
Theorem notebook_step_order
    (model_output : tf_state -> list (list spec_float))
    (x_train : array) (paths : gset string) (r : rng) :
  (forall st, has_shape (model_output st) (Z.to_nat M) 784) ->
  Forall (Forall pixel) x_train ->
  Forall (fun row => length row = 784%nat) x_train ->
  M <= shape0 x_train ->
  exists idx v w loop_tr,
    notebook model_output x_train (initial_world paths r) = Ok (v, w) /\
    w_trace w
    = [EvDefine "plot"; EvSetSeed 42; EvDefine "generator";
       EvLoadData "/tmp/data"; EvNewGenerator; EvPlaceholder;
       EvDefine "generative_network"; EvBuildModel;
       EvDefine "discriminative_network"; EvNewInference; EvNewInference;
       EvInitialize 15000 1000; EvGetSession; EvInitVariables;
       EvRandint idx] ++ loop_tr /\
    first_index is_savefig loop_tr = Some 1%nat /\
    first_index is_update loop_tr = Some 4%nat /\
    map fst (saves loop_tr)
    = [0; 1000; 2000; 3000; 4000; 5000; 6000; 7000; 8000; 9000;
       10000; 11000; 12000; 13000; 14000]%nat.
Proof.
  intros Hout Hpx Hrow Hfit.
  destruct (notebook_spec model_output x_train paths r Hout Hpx Hrow Hfit)
    as (idx & r1 & v & w & _ & _ & E & _ & _ & _ & _ & Htr).
  destruct (loop_first_events model_output idx) as [Hs Hu].
  exists idx, v, w,
    (loop_events model_output 1000 idx (range 15000) 0 (mk_tf 0 0)).
  split; [exact E|]. split; [|split; [exact Hs|split; [exact Hu|]]].
  - rewrite Htr. apply prelude_split.
  - rewrite loop_saves. vm_compute. reflexivity.
Qed.

Lemma notebook_step_order_witness :
  (forall st, has_shape (sample_output st) (Z.to_nat M) 784) /\
  Forall (Forall pixel) sample_data /\
  Forall (fun row => length row = 784%nat) sample_data /\
  M <= shape0 sample_data /\
  exists idx v w loop_tr,
    notebook sample_output sample_data (initial_world ∅ sample_rng)
      = Ok (v, w) /\
    w_trace w
    = [EvDefine "plot"; EvSetSeed 42; EvDefine "generator";
       EvLoadData "/tmp/data"; EvNewGenerator; EvPlaceholder;
       EvDefine "generative_network"; EvBuildModel;
       EvDefine "discriminative_network"; EvNewInference; EvNewInference;
       EvInitialize 15000 1000; EvGetSession; EvInitVariables;
       EvRandint idx] ++ loop_tr /\
    first_index is_savefig loop_tr = Some 1%nat /\
    first_index is_update loop_tr = Some 4%nat /\
    map fst (saves loop_tr)
    = [0; 1000; 2000; 3000; 4000; 5000; 6000; 7000; 8000; 9000;
       10000; 11000; 12000; 13000; 14000]%nat.
Proof.
  split; [exact sample_output_shape|].
  split; [exact sample_data_pixels|].
  split; [exact sample_data_rows|].
  split; [exact sample_data_fits|].
  apply (notebook_step_order sample_output sample_data ∅ sample_rng
           sample_output_shape sample_data_pixels sample_data_rows
           sample_data_fits).
Defined.

(** ** The plotted positions *)

(** C9.  The 16 row positions used for plotting are drawn once, before
    the loop is entered, each in [0, M), and repeats may occur; every one
    of the 15 figures saved shows the model output of its moment at these
    same 16 positions, in the same order. *)
Theorem plot_indices_drawn_once
    (model_output : tf_state -> list (list spec_float))
    (x_train : array) (paths : gset string) (r : rng) :
  (forall st, has_shape (model_output st) (Z.to_nat M) 784) ->
  Forall (Forall pixel) x_train ->
  Forall (fun row => length row = 784%nat) x_train ->
  M <= shape0 x_train ->
  exists idx r1 v w,
    randint M 16 r = Ok (idx, r1) /\
    length idx = 16%nat /\ Forall (fun i => 0 <= i < M) idx /\
    notebook model_output x_train (initial_world paths r) = Ok (v, w) /\
    count is_randint (w_trace w) = 1%nat /\
    w_trace w !! 14%nat = Some (EvRandint idx) /\
    first_index is_savefig (w_trace w) = Some 16%nat /\
    saved_figures (w_trace w)
    = map (fun k => figure_of (model_output (mk_tf (1000 * k) k)) idx)
          (seq 0 15) /\
    (forall st,
       Forall2 (fun i ax => exists row,
                  model_output st !! Z.to_nat i = Some row /\
                  ax_image ax = rows_of 28 28 row)
               idx (figure_of (model_output st) idx)) /\
    exists r0 idx0 r0', randint M 16 r0 = Ok (idx0, r0') /\ ~ NoDup idx0.
Proof.
  intros Hout Hpx Hrow Hfit.
  destruct (notebook_spec model_output x_train paths r Hout Hpx Hrow Hfit)
    as (idx & r1 & v & w & Eidx & Hidx & E & _ & _ & _ & _ & Htr).
  destruct (loop_first_events model_output idx) as [Hs _].
  exists idx, r1, v, w. split; [exact Eidx|].
  split; [apply Hidx|]. split; [apply Hidx|]. split; [exact E|].
  rewrite Htr.
  split; [|split; [|split; [|split; [|split]]]].
  - rewrite count_prelude, loop_events_count by reflexivity.
    change (count is_randint [EvNextBatch]) with 0%nat.
    change (count is_randint [EvUpdate]) with 0%nat.
    rewrite Nat.mul_0_r. reflexivity.
  - rewrite prelude_split, lookup_app_l by (vm_compute; lia). reflexivity.
  - rewrite prelude_split.
    rewrite (first_index_skip is_savefig (prelude_events ++ [EvRandint idx])
               _ 1 eq_refl Hs). reflexivity.
  - rewrite saved_figures_prelude. apply loop_saved_figures.
  - intros st. apply figure_of_rows; [apply Hout | exact Hidx].
  - eexists sample_rng, _, _. split; [vm_compute; reflexivity|].
    intros Hnd. apply NoDup_cons in Hnd as [Hnotin _].
    apply Hnotin. constructor.
Qed.

Lemma plot_indices_drawn_once_witness :
  (forall st, has_shape (sample_output st) (Z.to_nat M) 784) /\
  Forall (Forall pixel) sample_data /\
  Forall (fun row => length row = 784%nat) sample_data /\
  M <= shape0 sample_data /\
  exists idx r1 v w,
    randint M 16 sample_rng = Ok (idx, r1) /\
    length idx = 16%nat /\ Forall (fun i => 0 <= i < M) idx /\
    notebook sample_output sample_data (initial_world ∅ sample_rng)
      = Ok (v, w) /\
    count is_randint (w_trace w) = 1%nat /\
    w_trace w !! 14%nat = Some (EvRandint idx) /\
    first_index is_savefig (w_trace w) = Some 16%nat /\
    saved_figures (w_trace w)
    = map (fun k => figure_of (sample_output (mk_tf (1000 * k) k)) idx)
          (seq 0 15) /\
    (forall st,
       Forall2 (fun i ax => exists row,
                  sample_output st !! Z.to_nat i = Some row /\
                  ax_image ax = rows_of 28 28 row)
               idx (figure_of (sample_output st) idx)) /\
    exists r0 idx0 r0', randint M 16 r0 = Ok (idx0, r0') /\ ~ NoDup idx0.
Proof.
  split; [exact sample_output_shape|].
  split; [exact sample_data_pixels|].
  split; [exact sample_data_rows|].
  split; [exact sample_data_fits|].
  apply (plot_indices_drawn_once sample_output sample_data ∅ sample_rng
           sample_output_shape sample_data_pixels sample_data_rows
           sample_data_fits).
Defined.

(** * Further properties of the batch generator *)

Lemma slice_from_past {A} (a : list A) (lo : Z) :
  shape0 a <= lo -> slice a (Some lo) None = [].
Proof.
  intros Hlo. unfold slice, clip_index, shape0 in *.
  destruct (Z.ltb_spec lo 0); [lia|].
  rewrite Z.min_r by lia. rewrite Z.sub_diag. reflexivity.
Qed.

Lemma slice_upto_past {A} (a : list A) (hi : Z) :
  shape0 a <= hi -> slice a None (Some hi) = a.
Proof.
  intros Hhi. unfold slice, clip_index, shape0 in *.
  destruct (Z.ltb_spec hi 0); [lia|].
  rewrite Z.min_r by lia. rewrite Z.sub_0_r, Nat2Z.id. cbn [drop].
  apply take_ge. lia.
Qed.


Lemma start_at_oversized (arr : array) (batch_size : Z) (k : nat) :
  shape0 arr < batch_size ->
  start_at arr batch_size k = Z.of_nat k * (batch_size - shape0 arr).
Proof.
  intros Hbig. induction k as [|k IH]; [reflexivity|].
  cbn [start_at]. rewrite IH. unfold select_batch.
  assert (0 <= Z.of_nat k * (batch_size - shape0 arr)) by nia.
  destruct (Z.leb_spec
              (Z.of_nat k * (batch_size - shape0 arr) + batch_size - shape0 arr)
              0); [lia|].
  cbn [snd]. lia.
Qed.

Lemma raw_batch_first_oversized (arr : array) (batch_size : Z) :
  shape0 arr < batch_size ->
  raw_batch arr batch_size 0
  = arr ++ take (Z.to_nat (batch_size - shape0 arr)) arr.
Proof.
  intros Hbig. unfold raw_batch. cbn [start_at]. unfold select_batch.
  destruct (Z.leb_spec (0 + batch_size - shape0 arr) 0);
    [unfold shape0 in *; lia|].
  cbn [fst]. rewrite slice_from by (unfold shape0; lia). cbn [drop Z.to_nat].
  f_equal. unfold slice, clip_index.
  destruct (Z.ltb_spec (0 + batch_size - shape0 arr) 0); [lia|].
  rewrite Z.sub_0_r. cbn [drop Z.to_nat].
  destruct (Z.le_ge_cases (0 + batch_size - shape0 arr) (shape0 arr)).
  - rewrite Z.min_l by lia. reflexivity.
  - rewrite Z.min_r by lia. unfold shape0 in *.
    change (Z.to_nat 0) with 0%nat. rewrite drop_0.
    rewrite !take_ge by lia. reflexivity.
Qed.

Lemma raw_batch_oversized (arr : array) (batch_size : Z) (j : nat) :
  shape0 arr < batch_size ->
  raw_batch arr batch_size j
  = drop (Z.to_nat (Z.of_nat j * (batch_size - shape0 arr))) arr
    ++ take (Z.to_nat (Z.of_nat (S j) * (batch_size - shape0 arr))) arr.
Proof.
  intros Hbig. unfold raw_batch. rewrite start_at_oversized by exact Hbig.
  replace (Z.of_nat (S j) * (batch_size - shape0 arr))
    with (Z.of_nat j * (batch_size - shape0 arr) + batch_size - shape0 arr)
    by lia.
  assert (Hs : 0 <= Z.of_nat j * (batch_size - shape0 arr)) by nia.
  revert Hs. generalize (Z.of_nat j * (batch_size - shape0 arr)).
  intros s Hs. unfold select_batch.
  destruct (Z.leb_spec (s + batch_size - shape0 arr) 0); [lia|].
  cbn [fst]. f_equal.
  - destruct (Z.le_gt_cases s (shape0 arr)) as [Hin|Hout].
    + apply slice_from; assumption.
    + rewrite slice_from_past by lia.
      symmetry. apply drop_ge. unfold shape0 in *. lia.
  - destruct (Z.le_gt_cases (s + batch_size - shape0 arr) (shape0 arr))
      as [Hin|Hout].
    + apply slice_upto; lia.
    + rewrite slice_upto_past by lia.
      symmetry. apply take_ge. unfold shape0 in *. lia.
Qed.

Lemma raw_batch_oversized_rows (arr : array) (batch_size : Z) (j : nat) :
  shape0 arr < batch_size ->
  shape0 (raw_batch arr batch_size j)
  = Z.max (shape0 arr - Z.of_nat j * (batch_size - shape0 arr)) 0
    + Z.min (Z.of_nat (S j) * (batch_size - shape0 arr)) (shape0 arr).
Proof.
  intros Hbig. rewrite raw_batch_oversized by exact Hbig.
  replace (Z.of_nat (S j) * (batch_size - shape0 arr))
    with (Z.of_nat j * (batch_size - shape0 arr) + (batch_size - shape0 arr))
    by lia.
  assert (Hs : 0 <= Z.of_nat j * (batch_size - shape0 arr)) by nia.
  revert Hs. generalize (Z.of_nat j * (batch_size - shape0 arr)).
  intros s Hs. unfold shape0 in *.
  rewrite length_app, length_drop, length_take. lia.
Qed.

(** When the batch size exceeds the number N of rows, the start pointer
    grows by batch_size - N on every pass, without bound.  The j-th batch
    is the rows from position j * (batch_size - N) to the end followed by
    the first (j + 1) * (batch_size - N) rows, both clipped to the array:
    it has batch_size rows as long as (j + 1) * (batch_size - N) <= N and
    fewer from then on.  The first batch is the array followed by its head,
    min(batch_size, 2N) rows; once the pointer has passed N every batch is
    the whole array, N rows and so fewer than batch_size. *)
Theorem generator_oversized_batch (arr : array) (batch_size : Z) (k : nat) :
  shape0 arr < batch_size ->
  shape0 arr <= Z.of_nat k * (batch_size - shape0 arr) ->
  raw_batch arr batch_size 0
    = arr ++ take (Z.to_nat (batch_size - shape0 arr)) arr /\
  start_at arr batch_size k = Z.of_nat k * (batch_size - shape0 arr) /\
  raw_batch arr batch_size k = arr /\
  shape0 (raw_batch arr batch_size k) < batch_size /\
  shape0 (raw_batch arr batch_size 0) = Z.min batch_size (2 * shape0 arr) /\
  forall j : nat,
    start_at arr batch_size j = Z.of_nat j * (batch_size - shape0 arr) /\
    raw_batch arr batch_size j
    = drop (Z.to_nat (Z.of_nat j * (batch_size - shape0 arr))) arr
      ++ take (Z.to_nat (Z.of_nat (S j) * (batch_size - shape0 arr))) arr /\
    (Z.of_nat (S j) * (batch_size - shape0 arr) <= shape0 arr ->
     shape0 (raw_batch arr batch_size j) = batch_size) /\
    (shape0 arr < Z.of_nat (S j) * (batch_size - shape0 arr) ->
     shape0 (raw_batch arr batch_size j) < batch_size).
Proof.
  intros Hbig Hk.
  assert (Hwhole : raw_batch arr batch_size k = arr).
  { unfold raw_batch. rewrite start_at_oversized by exact Hbig.
    unfold select_batch.
    destruct (Z.leb_spec
                (Z.of_nat k * (batch_size - shape0 arr) + batch_size
                 - shape0 arr) 0); [unfold shape0 in *; lia|].
    cbn [fst]. rewrite slice_from_past, slice_upto_past by lia.
    reflexivity. }
  split; [apply raw_batch_first_oversized, Hbig|].
  split; [apply start_at_oversized, Hbig|].
  split; [exact Hwhole|].
  split; [rewrite Hwhole; exact Hbig|].
  split.
  { rewrite raw_batch_oversized_rows by exact Hbig.
    pose proof (Nat2Z.is_nonneg (length arr)). unfold shape0 in *. lia. }
  intros j.
  split; [apply start_at_oversized, Hbig|].
  split; [apply raw_batch_oversized, Hbig|].
  split; intros Hj; rewrite raw_batch_oversized_rows by exact Hbig.
  - assert (0 <= Z.of_nat j * (batch_size - shape0 arr)) by nia. lia.
  - assert (0 <= Z.of_nat j * (batch_size - shape0 arr)) by nia. lia.
Qed.

Lemma generator_oversized_batch_witness :
  let arr := [[1]; [2]; [3]] in
  shape0 arr < 5 /\
  shape0 arr <= Z.of_nat 2 * (5 - shape0 arr) /\
  (raw_batch arr 5 0 = arr ++ take (Z.to_nat (5 - shape0 arr)) arr /\
   start_at arr 5 2 = Z.of_nat 2 * (5 - shape0 arr) /\
   raw_batch arr 5 2 = arr /\
   shape0 (raw_batch arr 5 2) < 5 /\
   shape0 (raw_batch arr 5 0) = Z.min 5 (2 * shape0 arr) /\
   forall j : nat,
     start_at arr 5 j = Z.of_nat j * (5 - shape0 arr) /\
     raw_batch arr 5 j
     = drop (Z.to_nat (Z.of_nat j * (5 - shape0 arr))) arr
       ++ take (Z.to_nat (Z.of_nat (S j) * (5 - shape0 arr))) arr /\
     (Z.of_nat (S j) * (5 - shape0 arr) <= shape0 arr ->
      shape0 (raw_batch arr 5 j) = 5) /\
     (shape0 arr < Z.of_nat (S j) * (5 - shape0 arr) ->
      shape0 (raw_batch arr 5 j) < 5)).
Proof.
  intros arr.
  split; [reflexivity|]. split; [vm_compute; discriminate|].
  apply (generator_oversized_batch arr 5 2).
  - reflexivity.
  - vm_compute; discriminate.
Defined.

(** The row counts of that run: five rows, then four, then three for
    good. *)
Lemma generator_oversized_rows_computed :
  map (fun j => length (raw_batch [[1]; [2]; [3]] 5 j)) (seq 0 5)
  = [5; 4; 3; 3; 3]%nat.
Proof. reflexivity. Qed.



(** With a batch size below zero the first call of [next] raises like any
    other when the rows it selects hold a value outside [0, 255]. *)
Lemma generator_nonpositive_first_call_raises :
  next (generator [[256]; [1]] (-1)) sample_rng = Raise ValueError.
Proof. reflexivity. Qed.



(** On an array without rows every call of [next] yields an empty batch,
    whatever the batch size and the start pointer, without consuming any
    randomness and without raising. *)
Theorem generator_empty_array (g : gen) (r : rng) :
  gen_array g = [] -> next g r = Ok ([], advance g, r).
Proof.
  intros Hempty. rewrite next_unfold. unfold selected, select_batch.
  rewrite Hempty.
  assert (Hnil : forall lo hi, slice (@nil (list Z)) lo hi = []).
  { intros lo hi. unfold slice. now rewrite drop_nil, take_nil. }
  destruct (_ <=? 0); cbn [fst]; rewrite !Hnil; reflexivity.
Qed.

Lemma generator_empty_array_witness :
  gen_array (generator [] 128) = [] /\
  next (generator [] 128) sample_rng
    = Ok ([], advance (generator [] 128), sample_rng).
Proof.
  split; [reflexivity|].
  apply (generator_empty_array (generator [] 128) sample_rng). reflexivity.
Defined.

Lemma batches_length (arr : array) (batch_size : Z) (n : nat) :
  1 <= batch_size -> batch_size <= shape0 arr ->
  length (concat (raw_batch arr batch_size <$> seq 0 n))
  = (n * Z.to_nat batch_size)%nat.
Proof.
  intros Hpos Hfit. induction n as [|n IH]; [reflexivity|].
  rewrite seq_S, fmap_app, concat_app, length_app, IH. cbn.
  rewrite app_nil_r, raw_batch_length by assumption. lia.
Qed.

Lemma batches_lookup (arr : array) (batch_size : Z) (n i : nat) :
  1 <= batch_size -> batch_size <= shape0 arr ->
  (i < n * Z.to_nat batch_size)%nat ->
  concat (raw_batch arr batch_size <$> seq 0 n) !! i
  = arr !! (i mod length arr)%nat.
Proof.
  intros Hpos Hfit. induction n as [|n IH]; intros Hi; [lia|].
  rewrite seq_S, fmap_app, concat_app. cbn [fmap list_fmap concat Nat.add].
  rewrite app_nil_r.
  destruct (decide (i < n * Z.to_nat batch_size)%nat) as [Hlt|Hge].
  - rewrite lookup_app_l by (rewrite batches_length by assumption; exact Hlt).
    apply IH, Hlt.
  - rewrite lookup_app_r by (rewrite batches_length by assumption; lia).
    rewrite batches_length by assumption.
    rewrite raw_batch_lookup by (try assumption; lia). f_equal.
    replace (Z.of_nat n * batch_size
             + Z.of_nat (i - n * Z.to_nat batch_size)) with (Z.of_nat i)
      by nia.
    unfold shape0. rewrite <- Nat2Z.inj_mod. apply Nat2Z.id.
Qed.

(** For 1 <= batch_size <= N the batches, laid end to end, are the array
    repeated over and over: the i-th row drawn is row i mod N, so no row is
    skipped and none is drawn twice before all others have been drawn. *)
Theorem generator_stream_is_cyclic
    (arr : array) (batch_size : Z) (n i : nat) :
  1 <= batch_size -> batch_size <= shape0 arr ->
  (i < n * Z.to_nat batch_size)%nat ->
  concat (raw_batch arr batch_size <$> seq 0 n) !! i
  = arr !! (i mod length arr)%nat.
Proof. apply batches_lookup. Qed.

Lemma generator_stream_is_cyclic_witness :
  1 <= 2 /\ 2 <= shape0 [[10]; [11]; [12]] /\ (5 < 3 * Z.to_nat 2)%nat /\
  concat (raw_batch [[10]; [11]; [12]] 2 <$> seq 0 3) !! 5%nat
  = [[10]; [11]; [12]] !! (5 mod length [[10]; [11]; [12]])%nat.
Proof.
  split; [lia|]. split; [vm_compute; discriminate|].
  split; [vm_compute; lia|].
  apply (generator_stream_is_cyclic [[10]; [11]; [12]] 2 3 5).
  - lia.
  - vm_compute; discriminate.
  - vm_compute; lia.
Defined.

(** When the batch size divides the number of rows, N / batch_size
    successive batches from the start are one pass over the data: laid end
    to end they are the array itself, every row once and in order. *)
Theorem generator_epoch (arr : array) (batch_size : Z) (m : nat) :
  1 <= batch_size -> shape0 arr = Z.of_nat m * batch_size ->
  concat (raw_batch arr batch_size <$> seq 0 m) = arr.
Proof.
  intros Hpos Hdiv.
  destruct m as [|m].
  { cbn. unfold shape0 in Hdiv. destruct arr; [reflexivity | discriminate]. }
  assert (Hfit : batch_size <= shape0 arr) by nia.
  assert (Hlen : length (concat (raw_batch arr batch_size <$> seq 0 (S m)))
                 = length arr).
  { rewrite batches_length by assumption. unfold shape0 in Hdiv. nia. }
  apply list_eq. intros i.
  destruct (decide (i < length arr)%nat) as [Hi|Hi].
  - rewrite batches_lookup by (try assumption; unfold shape0 in *; nia).
    now rewrite Nat.mod_small by exact Hi.
  - rewrite !lookup_ge_None_2 by lia. reflexivity.
Qed.

Lemma generator_epoch_witness :
  1 <= 2 /\ shape0 [[10]; [11]; [12]; [13]] = Z.of_nat 2 * 2 /\
  concat (raw_batch [[10]; [11]; [12]; [13]] 2 <$> seq 0 2)
  = [[10]; [11]; [12]; [13]].
Proof.
  split; [lia|]. split; [reflexivity|].
  apply (generator_epoch [[10]; [11]; [12]; [13]] 2 2); [lia | reflexivity].
Defined.

(** For 1 <= batch_size <= N the sequence of batches repeats after N
    passes: batch k + N selects the same rows as batch k. *)
Theorem generator_period (arr : array) (batch_size : Z) (k : nat) :
  1 <= batch_size -> batch_size <= shape0 arr ->
  raw_batch arr batch_size (k + length arr) = raw_batch arr batch_size k.
Proof.
  intros Hpos Hfit. apply list_eq. intros j.
  destruct (decide (j < Z.to_nat batch_size)%nat) as [Hj|Hj].
  - rewrite !raw_batch_lookup by (try assumption; lia). f_equal. f_equal.
    rewrite Nat2Z.inj_add, Z.mul_add_distr_r. fold (shape0 arr).
    replace (Z.of_nat k * batch_size + shape0 arr * batch_size + Z.of_nat j)
      with (Z.of_nat k * batch_size + Z.of_nat j + batch_size * shape0 arr)
      by lia.
    apply Z.mod_add. lia.
  - rewrite !lookup_ge_None_2; [reflexivity| |];
      rewrite raw_batch_length by assumption; lia.
Qed.

Lemma generator_period_witness :
  1 <= 2 /\ 2 <= shape0 [[10]; [11]; [12]] /\
  raw_batch [[10]; [11]; [12]] 2 (1 + length [[10]; [11]; [12]])
  = raw_batch [[10]; [11]; [12]] 2 1.
Proof.
  split; [lia|]. split; [vm_compute; discriminate|].
  apply (generator_period [[10]; [11]; [12]] 2 1).
  - lia.
  - vm_compute; discriminate.
Defined.

(** * Further properties of [plot] *)

Lemma plot_from_bad_sample (samples : list (list spec_float)) :
  forall (i0 j : nat) (s : list spec_float),
    (i0 + j < 16)%nat -> samples !! j = Some s -> length s <> 784%nat ->
    plot_from i0 samples = Raise ValueError.
Proof.
  induction samples as [|h rest IH]; intros i0 j s Hj Hs Hbad;
    [discriminate|].
  cbn [plot_from]. unfold rbind at 1, gridspec_getitem.
  change (4 * 4)%nat with 16%nat.
  destruct (Nat.ltb_spec i0 16) as [_|Hge]; [|lia].
  unfold rbind at 1, reshape. change (28 * 28)%nat with 784%nat.
  destruct (Nat.eqb_spec (length h) 784) as [Hh|Hh]; [|reflexivity].
  destruct j as [|j].
  - injection Hs as ->. contradiction.
  - rewrite (IH (S i0) j s) by (assumption || lia). reflexivity.
Qed.

Lemma plot_from_too_many (samples : list (list spec_float)) :
  forall i0 : nat,
    (i0 <= 16)%nat -> (16 - i0 < length samples)%nat ->
    Forall (fun s => length s = 784%nat) (take (16 - i0) samples) ->
    plot_from i0 samples = Raise IndexError.
Proof.
  induction samples as [|h rest IH]; intros i0 Hi0 Hlen Hgood;
    [cbn in Hlen; lia|].
  cbn [plot_from]. unfold rbind at 1, gridspec_getitem.
  change (4 * 4)%nat with 16%nat.
  destruct (Nat.ltb_spec i0 16) as [Hlt|Hge]; [|reflexivity].
  replace (16 - i0)%nat with (S (16 - S i0)) in Hgood by lia.
  cbn [take] in Hgood. inversion Hgood as [|? ? Hh Hrest]; subst.
  unfold rbind at 1, reshape. change (28 * 28)%nat with 784%nat.
  rewrite Hh, Nat.eqb_refl.
  rewrite IH by (try assumption; cbn in Hlen; lia). reflexivity.
Qed.

(** How [plot] fails: a sample among the first 16 that does not have 784
    elements makes the reshape raise [ValueError]; 16 well-sized samples
    followed by a 17th make the grid indexing raise [IndexError]. *)
Theorem plot_failure_kinds (samples : list (list spec_float)) :
  ((exists (i : nat) s,
      (i < 16)%nat /\ samples !! i = Some s /\ length s <> 784%nat) ->
   plot samples = Raise ValueError) /\
  ((16 < length samples)%nat ->
   Forall (fun s => length s = 784%nat) (take 16 samples) ->
   plot samples = Raise IndexError).
Proof.
  split.
  - intros (i & s & Hi & Hs & Hbad).
    apply (plot_from_bad_sample samples 0 i s); assumption.
  - intros Hlen Hgood. apply plot_from_too_many; [lia | exact Hlen | exact Hgood].
Qed.

Lemma rows_of_spec {A} (r c : nat) :
  forall l : list A, length l = (r * c)%nat ->
    concat (rows_of r c l) = l /\ has_shape (rows_of r c l) r c.
Proof.
  unfold has_shape. induction r as [|r IH]; intros l Hl.
  - destruct l; [|discriminate]. repeat split. constructor.
  - cbn [rows_of concat length].
    destruct (IH (drop c l)) as (Hcat & Hlen & Hrows).
    { rewrite length_drop. lia. }
    rewrite Hcat, take_drop, Hlen. repeat split.
    constructor; [|exact Hrows]. rewrite length_take. lia.
Qed.

Lemma grid_cell_inj : Inj (=) (=) (fun k : nat => ((k / 4)%nat, (k mod 4)%nat)).
Proof.
  intros a b Hab.
  assert (Hq : (a / 4 = b / 4)%nat) by exact (f_equal fst Hab).
  assert (Hr : (a mod 4 = b mod 4)%nat) by exact (f_equal snd Hab).
  pose proof (Nat.div_mod a 4). pose proof (Nat.div_mod b 4). lia.
Qed.

(** What a successful [plot] shows: sample i sits in grid cell
    (i div 4, i mod 4), no cell is used twice, and each image is the
    sample cut into 28 rows of 28 values: flattened again it is the sample
    it was made from. *)
Theorem plot_shows_samples (samples : list (list spec_float)) (fig : figure) :
  plot samples = Ok fig ->
  map ax_cell fig
    = map (fun k => ((k / 4)%nat, (k mod 4)%nat)) (seq 0 (length samples)) /\
  NoDup (map ax_cell fig) /\
  Forall2 (fun s ax => concat (ax_image ax) = s /\
                       has_shape (ax_image ax) 28 28)
          samples fig.
Proof.
  intros Hplot.
  assert (Hok : exists f, plot samples = Ok f) by eauto.
  apply plot_ok_iff in Hok as [_ Hsizes].
  unfold plot in Hplot.
  destruct (plot_from_length samples 0 fig Hplot) as [_ Hcells].
  split; [exact Hcells|]. split.
  - rewrite Hcells.
    apply (NoDup_fmap_2 _ (seq 0 (length samples)) (Inj0 := grid_cell_inj)),
          NoDup_seq.
  - pose proof (plot_from_images samples 0 fig Hplot) as Himgs.
    clear Hplot Hcells. induction Himgs as [|s ax samples fig Himg _ IH].
    + constructor.
    + inversion Hsizes as [|? ? Hs Hrest]; subst.
      constructor; [|apply IH, Hrest].
      rewrite Himg. apply rows_of_spec. exact Hs.
Qed.

Lemma plot_shows_samples_witness :
  let samples := [replicate 784 f32_zero] in
  let fig := [{| ax_cell := (0, 0)%nat;
                 ax_image := rows_of 28 28 (replicate 784 f32_zero) |}] in
  plot samples = Ok fig /\
  (map ax_cell fig
     = map (fun k => ((k / 4)%nat, (k mod 4)%nat)) (seq 0 (length samples)) /\
   NoDup (map ax_cell fig) /\
   Forall2 (fun s ax => concat (ax_image ax) = s /\
                        has_shape (ax_image ax) 28 28)
           samples fig).
Proof.
  intros samples fig.
  assert (H : plot samples = Ok fig) by reflexivity.
  split; [exact H|]. apply (plot_shows_samples samples fig H).
Defined.

(** * The names of the figure files *)

Lemma string_length_app (a b : string) :
  String.length (a +:+ b) = (String.length a + String.length b)%nat.
Proof. induction a as [|c a IH]; simpl; [reflexivity | now rewrite IH]. Qed.

Lemma string_app_nil_r (a : string) : a +:+ "" = a.
Proof.
  induction a as [|c a IH]; [reflexivity|].
  change (String c (a +:+ "") = String c a). now rewrite IH.
Qed.

Lemma string_app_inj_r (s a b : string) : a +:+ s = b +:+ s -> a = b.
Proof.
  revert b. induction a as [|c a IH]; intros [|c' b] H.
  - reflexivity.
  - apply (f_equal String.length) in H.
    rewrite !string_length_app in H. simpl in H. lia.
  - apply (f_equal String.length) in H.
    rewrite !string_length_app in H. simpl in H. lia.
  - change (String c (a +:+ s) = String c' (b +:+ s)) in H.
    injection H as -> H. f_equal. apply IH, H.
Qed.

Lemma figure_path_unfold (i : Z) :
  figure_path i = "/tmp/out/" +:+ zfill 3 (str i) +:+ ".png".
Proof. reflexivity. Qed.

(** A non-negative integer prints as its decimal digits. *)
Lemma str_digits (i : Z) :
  0 <= i ->
  exists u, str i = NilEmpty.string_of_uint u /\ Z.of_uint u = i.
Proof.
  intros Hi. pose proof (DecimalZ.of_to i) as Hrt. unfold str.
  destruct i as [|p|p]; [| |lia].
  - exists (Decimal.D0 Decimal.Nil). split; reflexivity.
  - cbn [Z.to_int] in *. cbn [Z.of_int] in Hrt.
    exists (Pos.to_uint p). split; [|exact Hrt].
    cbn [NilZero.string_of_int]. unfold NilZero.string_of_uint.
    destruct (Pos.to_uint p); try reflexivity. discriminate.
Qed.

(** Zero-filling a string of digits only puts zeros in front. *)
Lemma zfill_digits (width : nat) (u : Decimal.uint) :
  exists k, zfill width (NilEmpty.string_of_uint u)
            = zeros k +:+ NilEmpty.string_of_uint u.
Proof.
  unfold zfill.
  destruct (width <=? String.length (NilEmpty.string_of_uint u))%nat.
  - exists 0%nat. reflexivity.
  - destruct u; cbn [NilEmpty.string_of_uint];
      try (eexists; reflexivity).
    exists width. now rewrite string_app_nil_r.
Qed.

Lemma leading_zeros_value (k : nat) (s : string) (u : Decimal.uint) :
  NilEmpty.uint_of_string s = Some u ->
  exists u', NilEmpty.uint_of_string (zeros k +:+ s) = Some u' /\
             Z.of_uint u' = Z.of_uint u.
Proof.
  intros Hs. induction k as [|k (u' & Hu' & Hval)].
  - exists u. split; [exact Hs | reflexivity].
  - exists (Decimal.D0 u').
    change (zeros (S k) +:+ s) with (String "0" (zeros k +:+ s)).
    cbn [NilEmpty.uint_of_string]. rewrite Hu'.
    split; [reflexivity | exact Hval].
Qed.

(** The index can be read back from the zero-filled name. *)
Lemma zfill_str_value (width : nat) (i : Z) :
  0 <= i ->
  exists u, NilEmpty.uint_of_string (zfill width (str i)) = Some u /\
            Z.of_uint u = i.
Proof.
  intros Hi. destruct (str_digits i Hi) as (u & -> & Hval).
  destruct (zfill_digits width u) as (k & ->).
  destruct (leading_zeros_value k _ u (NilEmpty.usu u)) as (u' & Hu' & Hval').
  exists u'. split; [exact Hu' | congruence].
Qed.

(** Figures with different non-negative indices go to different files,
    however many digits the index has: no figure of a run overwrites an
    earlier one. *)
Theorem figure_paths_distinct (i j : Z) :
  0 <= i -> 0 <= j -> figure_path i = figure_path j -> i = j.
Proof.
  intros Hi Hj Heq. rewrite !figure_path_unfold in Heq.
  apply (inj (String.app "/tmp/out/")) in Heq.
  apply string_app_inj_r in Heq.
  destruct (zfill_str_value 3 i Hi) as (u & Hu & <-).
  destruct (zfill_str_value 3 j Hj) as (v & Hv & <-).
  rewrite Heq, Hv in Hu. now injection Hu as ->.
Qed.

Lemma figure_paths_distinct_witness :
  0 <= 7 /\ 0 <= 7 /\ figure_path 7 = figure_path 7 /\ 7 = 7.
Proof.
  assert (H : figure_path 7 = figure_path 7) by reflexivity.
  split; [lia|]. split; [lia|]. split; [exact H|].
  apply (figure_paths_distinct 7 7); [lia | lia | exact H].
Defined.

(** * Further properties of the setup and of the training loop *)

(** The setup only ever adds to the file system: every path that existed
    before still exists, the only paths that can appear are the output
    directory and its parent, and the file system is left untouched
    exactly when the output directory was already there. *)
Theorem setup_out_dir_only_adds (s : os_state) :
  exists s', setup_out_dir s = Ok (tt, s') /\
    os_paths s ⊆ os_paths s' /\
    os_paths s' ⊆ os_paths s ∪ {["/tmp/out"; "/tmp"]} /\
    (os_paths s' = os_paths s <-> out_dir ∈ os_paths s).
Proof.
  destruct (decide (out_dir ∈ os_paths s)) as [Hin|Habs].
  - eexists. split; [apply setup_out_dir_present, Hin|]. cbn [os_paths].
    split; [set_solver|]. split; [set_solver|]. split; auto.
  - eexists. split; [apply setup_out_dir_absent, Habs|]. cbn [os_paths].
    change (parents out_dir) with ["/tmp"]. unfold out_dir in *.
    split; [set_solver|]. split; [set_solver|]. split; [|contradiction].
    intros Heq. exfalso. apply Habs. rewrite <- Heq. set_solver.
Qed.

Lemma range_cons (n : Z) : 0 < n -> exists rest, range n = 0 :: rest.
Proof.
  intros Hn. unfold range.
  destruct (Z.to_nat n) as [|m] eqn:Hm; [lia|].
  cbn [seq map]. eauto.
Qed.

Lemma range_nil (n : Z) : n <= 0 -> range n = [].
Proof.
  intros Hn. unfold range. replace (Z.to_nat n) with 0%nat by lia.
  reflexivity.
Qed.

(** With a printing period of 0 the loop stops in its first iteration with
    [ZeroDivisionError], raised by [t % inference.n_print] before any
    figure is rendered or any batch is drawn. *)
Theorem training_loop_zero_period
    (model_output : tf_state -> list (list spec_float))
    (inf : inference) (g : gen) (w : world) :
  n_print inf = 0 -> 0 < n_iter inf ->
  training_loop model_output inf g w = Raise ZeroDivisionError.
Proof.
  intros Hnp Hni.
  destruct (randint_spec M 16 (w_rng w)) as (idx & r1 & Eidx & _);
    [reflexivity|].
  destruct (range_cons (n_iter inf) Hni) as (rest & Hrange).
  unfold training_loop. rewrite Hrange.
  do 2 step_log.
  erewrite (bind_ok (with_rng _))
    by (unfold with_rng; cbn [w_rng]; rewrite Eidx; reflexivity).
  step_log. cbn [for_range]. unfold bind at 1, loop_body.
  unfold bind at 1, lift, py_mod. rewrite Hnp. reflexivity.
Qed.

Lemma training_loop_zero_period_witness :
  n_print {| n_iter := 15000; n_print := 0 |} = 0 /\
  0 < n_iter {| n_iter := 15000; n_print := 0 |} /\
  training_loop sample_output {| n_iter := 15000; n_print := 0 |}
                (generator sample_data M) (initial_world ∅ sample_rng)
  = Raise ZeroDivisionError.
Proof.
  split; [reflexivity|]. split; [reflexivity|].
  apply (training_loop_zero_period sample_output
           {| n_iter := 15000; n_print := 0 |} (generator sample_data M)
           (initial_world ∅ sample_rng)); reflexivity.
Defined.

(** With an iteration count of 0 or less the loop body never runs: the
    indices are drawn, and then the loop returns with [i] still 0, the
    generator untouched, no figure saved and no update made, whatever the
    printing period. *)
Theorem training_loop_no_iterations
    (model_output : tf_state -> list (list spec_float))
    (inf : inference) (g : gen) (w : world) :
  n_iter inf <= 0 ->
  exists idx r',
    randint M 16 (w_rng w) = Ok (idx, r') /\
    training_loop model_output inf g w
    = Ok ({| lv_i := 0; lv_gen := g |},
          {| w_os := w_os w; w_rng := r'; w_tf := w_tf w;
             w_trace := w_trace w
               ++ [EvGetSession; EvInitVariables; EvRandint idx] |}).
Proof.
  intros Hni.
  destruct (randint_spec M 16 (w_rng w)) as (idx & r1 & Eidx & _);
    [reflexivity|].
  exists idx, r1. split; [exact Eidx|].
  unfold training_loop. rewrite (range_nil _ Hni).
  do 2 step_log.
  erewrite (bind_ok (with_rng _))
    by (unfold with_rng; cbn [w_rng]; rewrite Eidx; reflexivity).
  step_log. cbn [for_range]. unfold ret.
  rewrite <- !app_assoc. reflexivity.
Qed.

Lemma training_loop_no_iterations_witness :
  n_iter {| n_iter := 0; n_print := 1000 |} <= 0 /\
  exists idx r',
    randint M 16 (w_rng (initial_world ∅ sample_rng)) = Ok (idx, r') /\
    training_loop sample_output {| n_iter := 0; n_print := 1000 |}
                  (generator sample_data M) (initial_world ∅ sample_rng)
    = Ok ({| lv_i := 0; lv_gen := generator sample_data M |},
          {| w_os := w_os (initial_world ∅ sample_rng); w_rng := r';
             w_tf := w_tf (initial_world ∅ sample_rng);
             w_trace := w_trace (initial_world ∅ sample_rng)
               ++ [EvGetSession; EvInitVariables; EvRandint idx] |}).
Proof.
  split; [cbn; lia|].
  apply (training_loop_no_iterations sample_output
           {| n_iter := 0; n_print := 1000 |} (generator sample_data M)
           (initial_world ∅ sample_rng)).
  cbn. lia.
Defined.

(** *** Any iteration count and printing period *)

Lemma saves_from_quiet (n : nat) (rest : list event) :
  forall u,
    saves_from u (concat (replicate n [EvNextBatch; EvUpdate; EvPrintProgress])
                    ++ rest)
    = saves_from (u + n) rest.
Proof.
  induction n as [|n IH]; intros u.
  - cbn. now rewrite Nat.add_0_r.
  - cbn [replicate concat app saves_from]. rewrite IH. f_equal. lia.
Qed.

Lemma saves_from_blocks mo idx (n blocks : nat) (rest : list event) :
  forall u i st,
    saves_from u (block_events mo idx n blocks i st ++ rest)
    = map (fun j => ((u + j * n)%nat, figure_path (i + Z.of_nat j)))
          (seq 0 blocks)
      ++ saves_from (u + blocks * n) rest.
Proof.
  induction blocks as [|blocks IH]; intros u i st.
  - cbn. now rewrite Nat.add_0_r.
  - cbn [block_events]. rewrite <- !app_assoc.
    cbn [app saves_from]. rewrite saves_from_quiet, IH.
    cbn [seq map app]. rewrite Nat.add_0_r, Z.add_0_r. f_equal.
    rewrite <- seq_shift, map_map. f_equal.
    + apply map_ext. intros j. f_equal; [lia | f_equal; lia].
    + f_equal. lia.
Qed.

Lemma quiet_prefix (n k m : nat) :
  (m <= n)%nat ->
  Forall (fun t => renders (Z.of_nat (S n)) t = false)
         (map Z.of_nat (seq (k * S n + 1) m)).
Proof.
  intros Hm. apply Forall_fmap, Forall_seq. intros j Hj. cbn.
  replace j with (k * S n + (j - k * S n))%nat by lia.
  apply renders_between. lia.
Qed.

(** The iterations left over after the last full period: they open with
    one more rendering. *)
Lemma loop_events_remainder mo idx (n k m : nat) (i : Z) (st : tf_state) :
  (m <= n)%nat ->
  let ts := map Z.of_nat (seq (k * S n) (S m)) in
  loop_events mo (Z.of_nat (S n)) idx ts i st
  = [EvSessRun; EvSavefig (figure_path i) (figure_of (mo st) idx); EvClose]
      ++ concat (replicate (S m) [EvNextBatch; EvUpdate; EvPrintProgress])
  /\ final_i (Z.of_nat (S n)) ts i = i + 1.
Proof.
  intros Hm. cbn [seq map loop_events final_i].
  unfold iteration_events at 1, step_i, step_tf.
  rewrite renders_multiple.
  replace (S (k * S n)) with (k * S n + 1)%nat by lia.
  destruct (loop_events_quiet mo (Z.of_nat (S n)) idx _ (quiet_prefix n k m Hm)
              (i + 1)
              {| tf_updates := S (tf_updates st); tf_runs := S (tf_runs st) |})
    as (-> & -> & _).
  rewrite length_map, length_seq. split; reflexivity.
Qed.

(** For every printing period S n and every iteration count
    K * S n + r with r <= n, on well-formed data the loop runs to the end,
    applies one update per iteration, and saves one figure per started
    period: K of them when r = 0 and K + 1 otherwise, the j-th after
    exactly j * S n updates and under the name j. *)
Theorem training_loop_figure_count
    (model_output : tf_state -> list (list spec_float))
    (inf : inference) (g : gen) (w : world) (n K r : nat) :
  (forall st, has_shape (model_output st) (Z.to_nat M) 784) ->
  gen_ok g ->
  n_print inf = Z.of_nat (S n) ->
  n_iter inf = Z.of_nat (K * S n + r) ->
  (r <= n)%nat ->
  exists v w' tr,
    training_loop model_output inf g w = Ok (v, w') /\
    w_trace w' = w_trace w ++ tr /\
    count is_update tr = (K * S n + r)%nat /\
    lv_gen v = advance_n (K * S n + r) g /\
    lv_i v = Z.of_nat (K + if (r =? 0)%nat then 0 else 1) /\
    saves tr
    = map (fun j => ((j * S n)%nat, figure_path (Z.of_nat j)))
          (seq 0 (K + if (r =? 0)%nat then 0 else 1)).
Proof.
  intros Hout Hgen Hnp Hni Hr.
  assert (Hnp0 : n_print inf <> 0) by lia.
  destruct (training_loop_spec model_output Hout inf g w Hnp0 Hgen)
    as (idx & r1 & r2 & _ & _ & E).
  eexists _, _, _. split; [exact E|]. cbn [w_trace lv_i lv_gen].
  split; [reflexivity|].
  rewrite Hnp, Hni. unfold range. rewrite Nat2Z.id, length_map, length_seq.
  split; [|split; [reflexivity|]].
  { rewrite count_app, loop_events_count by reflexivity.
    rewrite length_map, length_seq.
    change (count is_update [EvGetSession; EvInitVariables; EvRandint idx])
      with 0%nat.
    change (count is_update [EvNextBatch]) with 0%nat.
    change (count is_update [EvUpdate]) with 1%nat. lia. }
  rewrite seq_app, map_app, final_i_app. cbn [Nat.add].
  destruct (loop_events_blocks model_output idx n K 0 0 (w_tf w))
    as (Hblocks & Hi).
  cbv zeta in Hblocks, Hi. cbn [Nat.mul] in Hblocks, Hi.
  rewrite loop_events_app, Hblocks, !Hi.
  change (saves ([EvGetSession; EvInitVariables; EvRandint idx] ++ ?tr))
    with (saves_from 0 tr).
  rewrite saves_from_blocks.
  destruct r as [|m].
  - cbn [seq map final_i loop_events saves_from Nat.eqb].
    rewrite !Nat.add_0_r, app_nil_r. split; [lia|]. reflexivity.
  - destruct (loop_events_remainder model_output idx n K m (0 + Z.of_nat K)
                (final_tf (Z.of_nat (S n))
                          (map Z.of_nat (seq 0 (K * S n))) (w_tf w)))
      as (Hrem & Hi'); [lia|].
    cbv zeta in Hrem, Hi'. rewrite Hi', Hrem. cbn [Nat.eqb].
    split; [lia|].
    cbn [app saves_from].
    rewrite <- (app_nil_r (concat _)), saves_from_quiet. cbn [saves_from].
    replace (K + 1)%nat with (S K) by lia. rewrite seq_S, map_app.
    reflexivity.
Qed.

Lemma sample_generator_ok : gen_ok (generator sample_data M).
Proof.
  unfold gen_ok, generator. cbn [gen_array gen_batch_size gen_start].
  split; [exact sample_data_pixels|]. split; [exact sample_data_rows|].
  split; [reflexivity|]. split; [exact sample_data_fits|].
  unfold shape0. lia.
Qed.

Lemma training_loop_figure_count_witness :
  let inf := {| n_iter := 7; n_print := 3 |} in
  let g := generator sample_data M in
  let w := initial_world ∅ sample_rng in
  (forall st, has_shape (sample_output st) (Z.to_nat M) 784) /\
  gen_ok g /\
  n_print inf = Z.of_nat 3 /\
  n_iter inf = Z.of_nat (2 * 3 + 1) /\
  (1 <= 2)%nat /\
  exists v w' tr,
    training_loop sample_output inf g w = Ok (v, w') /\
    w_trace w' = w_trace w ++ tr /\
    count is_update tr = (2 * 3 + 1)%nat /\
    lv_gen v = advance_n (2 * 3 + 1) g /\
    lv_i v = Z.of_nat (2 + if (1 =? 0)%nat then 0 else 1) /\
    saves tr
    = map (fun j => ((j * 3)%nat, figure_path (Z.of_nat j)))
          (seq 0 (2 + if (1 =? 0)%nat then 0 else 1)).
Proof.
  intros inf g w.
  assert (Hle : (1 <= 2)%nat) by lia.
  split; [exact sample_output_shape|]. split; [exact sample_generator_ok|].
  split; [reflexivity|]. split; [reflexivity|]. split; [exact Hle|].
  apply (training_loop_figure_count sample_output inf g w 2 2 1
           sample_output_shape sample_generator_ok eq_refl eq_refl Hle).
Defined.

(** *** Too little data *)

Lemma next_only_raises_value_error (g : gen) (r : rng) (e : exn) :
  next g r = Raise e -> e = ValueError.
Proof.
  rewrite next_unfold. unfold binomial1, raise.
  destruct (existsb _ _); [now intros [= <-]|].
  destruct (existsb _ _); [now intros [= <-]|].
  destruct (bernoulli_array_spec (normalize (selected g)) r)
    as (b & r' & -> & _). discriminate.
Qed.

Lemma short_data_misfeeds (x_train : array) :
  2 * shape0 x_train < M ->
  forall r b g' r',
    next (generator x_train M) r = Ok (b, g', r') -> feed_ok b = false.
Proof.
  intros Hshort r b g' r' Hnext.
  destruct (next_inv _ _ _ _ _ Hnext) as [_ Hb].
  apply Forall2_length in Hb. unfold normalize in Hb.
  rewrite length_map in Hb.
  change (selected (generator x_train M)) with (raw_batch x_train M 0) in Hb.
  rewrite raw_batch_first_oversized in Hb by (unfold shape0 in *; lia).
  rewrite length_app, length_take in Hb.
  unfold feed_ok. apply andb_false_intro1, Nat.eqb_neq.
  unfold shape0, M in *. lia.
Qed.

Lemma training_loop_misfeeds
    (model_output : tf_state -> list (list spec_float))
    (inf : inference) (g : gen) (w : world) :
  (forall st, has_shape (model_output st) (Z.to_nat M) 784) ->
  n_print inf <> 0 -> 0 < n_iter inf ->
  (forall r b g' r', next g r = Ok (b, g', r') -> feed_ok b = false) ->
  training_loop model_output inf g w = Raise ValueError.
Proof.
  intros Hout Hnp Hni Hfeed.
  destruct (randint_spec M 16 (w_rng w)) as (idx & r1 & Eidx & Hlen & Hrange);
    [reflexivity|].
  assert (Hidx : idx_ok idx) by (split; assumption).
  destruct (range_cons (n_iter inf) Hni) as (rest & Hts).
  unfold training_loop. rewrite Hts.
  do 2 step_log.
  erewrite (bind_ok (with_rng _))
    by (unfold with_rng; cbn [w_rng]; rewrite Eidx; reflexivity).
  step_log. cbn [for_range]. unfold bind at 1, loop_body.
  match goal with |- context [bind (lift _) _ ?w1] =>
    rewrite (bind_ok (lift _) _ w1 w1 (0 mod n_print inf))
  end.
  2:{ unfold lift, py_mod. destruct (Z.eqb_spec (n_print inf) 0);
        [contradiction | reflexivity]. }
  rewrite Z.mod_0_l by exact Hnp. cbn [Z.eqb lv_i lv_gen].
  erewrite bind_ok by (apply render_spec; assumption).
  cbv beta. unfold bind at 1, next_batch, bind at 1, with_rng.
  cbn [w_rng].
  destruct (next g r1) as [[[b g'] r2]|e] eqn:Hnext.
  - unfold bind at 1, log, ret. unfold bind at 1, inference_update.
    rewrite (Hfeed _ _ _ _ Hnext). reflexivity.
  - now rewrite (next_only_raises_value_error _ _ _ Hnext).
Qed.

(** With fewer than M / 2 rows of data the very first batch is short, the
    placeholder rejects it, and the run ends with [ValueError] in its first
    iteration instead of training on short batches. *)
Theorem notebook_too_few_rows
    (model_output : tf_state -> list (list spec_float))
    (x_train : array) (paths : gset string) (r : rng) :
  (forall st, has_shape (model_output st) (Z.to_nat M) 784) ->
  2 * shape0 x_train < M ->
  notebook model_output x_train (initial_world paths r) = Raise ValueError.
Proof.
  intros Hout Hshort.
  destruct (setup_out_dir_returns {| os_paths := paths; os_calls := [] |})
    as (os1 & Eos & _).
  unfold notebook, initial_world.
  do 2 step_log.
  erewrite (bind_ok (with_os _))
    by (unfold with_os; cbn [w_os]; rewrite Eos; reflexivity).
  cbn [w_os w_rng w_tf w_trace].
  do 9 step_log.
  rewrite (bind_ok (initialize _ _) _ _ _ _ eq_refl).
  apply training_loop_misfeeds.
  - exact Hout.
  - discriminate.
  - reflexivity.
  - apply short_data_misfeeds, Hshort.
Qed.

Lemma notebook_too_few_rows_witness :
  (forall st, has_shape (sample_output st) (Z.to_nat M) 784) /\
  2 * shape0 [replicate 784 0] < M /\
  notebook sample_output [replicate 784 0] (initial_world ∅ sample_rng)
  = Raise ValueError.
Proof.
  assert (H : 2 * shape0 [replicate 784 0] < M) by reflexivity.
  split; [exact sample_output_shape|]. split; [exact H|].
  apply (notebook_too_few_rows sample_output [replicate 784 0] ∅ sample_rng
           sample_output_shape H).
Defined.

(** * Black pixels *)

Lemma bernoulli_zero (r : rng) (y : Z) (r' : rng) :
  bernoulli f32_zero r = Ok (y, r') -> y = 0.
Proof.
  unfold bernoulli, bernoulli_value, next_word, bind, ret.
  intros [= <- _]. change (threshold f32_zero) with 0.
  pose proof (N2Z.is_nonneg (rng_words r (rng_pos r) mod 2 ^ 53)) as Hv.
  destruct (Z.ltb_spec (Z.of_N (rng_words r (rng_pos r) mod 2 ^ 53)) 0)
    as [Hlt|_]; [|reflexivity].
  exfalso. exact (Z.lt_irrefl _ (Z.lt_le_trans _ _ _ Hlt Hv)).
Qed.

(** A pixel of value 0 is never switched on: wherever the selected rows
    hold 0, the batch yielded holds 0, whatever the random draws. *)
Theorem generator_keeps_black_pixels
    (g : gen) (r : rng) (b : array) (g' : gen) (r' : rng) :
  next g r = Ok (b, g', r') ->
  Forall2 (Forall2 (fun x y => x = 0 -> y = 0)) (selected g) b.
Proof.
  rewrite next_unfold. unfold binomial1.
  destruct (existsb _ _); [discriminate|].
  destruct (existsb _ _); [discriminate|].
  destruct (map_py (map_py bernoulli) (normalize (selected g)) r)
    as [[b0 r0]|] eqn:E; [|discriminate].
  intros [= <- _ _].
  assert (Hrow : forall ps s ys s',
            map_py bernoulli ps s = Ok (ys, s') ->
            Forall2 (fun p y => p = f32_zero -> y = 0) ps ys).
  { intros ps s ys s' Hps. eapply map_py_Forall2; [|exact Hps].
    intros p s0 y s0' Hy ->. eapply bernoulli_zero, Hy. }
  pose proof (map_py_Forall2 _ _ Hrow _ _ _ _ E) as Hrows.
  unfold normalize in Hrows. rewrite Forall2_fmap_l in Hrows.
  eapply Forall2_impl; [exact Hrows|].
  intros row brow Hbrow. cbn in Hbrow. rewrite Forall2_fmap_l in Hbrow.
  eapply Forall2_impl; [exact Hbrow|].
  intros x y Hxy ->. apply Hxy. reflexivity.
Qed.

Lemma generator_keeps_black_pixels_witness :
  let g := generator [[0; 255]] 1 in
  next g sample_rng
    = Ok ([[0; 1]], advance g, {| rng_words := fun _ => 5%N; rng_pos := 2 |}) /\
  Forall2 (Forall2 (fun x y => x = 0 -> y = 0)) (selected g) [[0; 1]].
Proof.
  intros g.
  assert (H : next g sample_rng
              = Ok ([[0; 1]], advance g,
                    {| rng_words := fun _ => 5%N; rng_pos := 2 |}))
    by (vm_compute; reflexivity).
  split; [exact H|].
  apply (generator_keeps_black_pixels g sample_rng _ _ _ H).
Defined.

(** * Batches and the placeholder *)

Lemma gen_ok_advance_n (n : nat) (g : gen) :
  gen_ok g -> gen_ok (advance_n n g).
Proof.
  revert g. induction n as [|n IH]; intros g Hg; cbn [advance_n]; [exact Hg|].
  apply IH, gen_ok_advance, Hg.
Qed.

(** On well-formed data with at least M rows every batch the generator
    yields, wrap-around batches included, has the shape [M, 784] of the
    placeholder it is fed to and holds only 0 and 1. *)
Theorem generator_batches_fit_placeholder (g : gen) (n : nat) (r : rng) :
  gen_ok g ->
  exists batches r',
    next_n n g r = Ok (batches, advance_n n g, r') /\
    length batches = n /\
    Forall (fun b : array =>
              has_shape b (Z.to_nat M) 784 /\ Forall (Forall bit) b /\
              feed_ok b = true)
           batches.
Proof.
  intros Hg.
  destruct (next_n_total n g r (proj1 Hg)) as (batches & r' & E).
  exists batches, r'. split; [exact E|].
  destruct (next_n_inv _ _ _ _ _ _ E) as (_ & Hlen & Hbs).
  split; [exact Hlen|].
  apply Forall_lookup. intros k b Hk. specialize (Hbs k b Hk).
  pose proof (gen_ok_advance_n k g Hg) as (Hpx & Hrow & Hsize & Hfit & Hstart).
  assert (Hshape : has_shape b (Z.to_nat M) 784).
  { split.
    - apply Forall2_length in Hbs. rewrite <- Hbs.
      unfold normalize. rewrite length_map. unfold selected. rewrite Hsize.
      apply select_batch_length; unfold M in *; try lia; assumption.
    - apply Forall_lookup. intros j brow Hj.
      destruct (Forall2_lookup_r _ _ _ _ _ Hbs Hj) as (prow & Hp & Hrows).
      apply Forall2_length in Hrows. rewrite <- Hrows.
      unfold normalize in Hp. rewrite list_lookup_fmap in Hp.
      destruct (selected (advance_n k g) !! j) as [raw|] eqn:Hraw;
        [|discriminate].
      injection Hp as <-. rewrite length_map.
      pose proof (select_batch_Forall _ _ (gen_batch_size (advance_n k g))
                    (gen_start (advance_n k g)) Hrow) as Hsel.
      rewrite Forall_lookup in Hsel. apply (Hsel j raw Hraw). }
  split; [exact Hshape|]. split; [eapply Forall2_bits, Hbs|].
  destruct Hshape as [Hl Hr]. unfold feed_ok.
  apply andb_true_intro. split; [apply Nat.eqb_eq, Hl|].
  apply forallb_forall. intros row Hin. apply Nat.eqb_eq.
  apply list_elem_of_In in Hin. rewrite Forall_forall in Hr. apply Hr, Hin.
Qed.

Lemma generator_batches_fit_placeholder_witness :
  gen_ok (generator sample_data M) /\
  exists batches r',
    next_n 3 (generator sample_data M) sample_rng
      = Ok (batches, advance_n 3 (generator sample_data M), r') /\
    length batches = 3%nat /\
    Forall (fun b : array =>
              has_shape b (Z.to_nat M) 784 /\ Forall (Forall bit) b /\
              feed_ok b = true)
           batches.
Proof.
  split; [exact sample_generator_ok|].
  apply (generator_batches_fit_placeholder (generator sample_data M) 3
           sample_rng sample_generator_ok).
Defined.
